(** * React keyboard dropdown: placement hook and selection controller

    A shallow embedding of [useDropdownPosition.js] (the placement hook and
    the [Dropdown] component that follows it in the same file) and of
    [useOnClickOutside.js].

    Conventions of the embedding.
    - Layout numbers (the fields of a [DOMRect], the viewport size) are
      doubles, as in the source: IEEE 754 binary64 values, with the sum
      and the difference of the standard library's [SpecFloat] (the exact
      result rounded to the nearest double, ties to even).  Comparisons
      and [Math.round] are exact operations on the values of doubles.
    - Option values are JavaScript primitives: integer-valued numbers and
      strings.  The component uses a plain object as a map from option
      value to index, so values are turned into property keys the way
      JavaScript does it ([String(v)]).
    - A React state variable is a field of a record; an event handler is
      a function from the record to the new record and the list of
      [onChange] calls it makes; effects are run by [commit] when one of
      their dependencies changed ([Object.is] on each dependency).
    - Arrays carry a reference, because dependencies that are arrays are
      compared by identity. *)

From Stdlib Require Import ZArith QArith Qround Lia Lqa SpecFloat.
From stdpp Require Import gmap strings pretty list.

(** ** Part I: useDropdownPosition *)

Module Placement.

Open Scope Q_scope.

(** A JavaScript number: an IEEE 754 binary64 value, in the representation
    of [SpecFloat]: a zero, an infinity, NaN, or sign, mantissa and
    exponent of a finite number. *)
Definition double := spec_float.

Definition prec : Z := 53%Z.
Definition emax : Z := 1024%Z.

(** The double nearest to [m * 2^e]. *)
Definition number (m e : Z) : double := binary_normalize prec emax m e false.

(** The double of a whole number. *)
Definition whole (z : Z) : double := number z 0.

(** The double a decimal literal denotes: the one nearest to
    [digits / 10^places] (for [digits] and [10^places] below [2^53]). *)
Definition decimal (digits : Z) (places : nat) : double :=
  SFdiv prec emax (whole digits) (whole (10 ^ Z.of_nat places)).

(** [a + b] and [a - b]: the exact result rounded to the nearest double. *)
Definition fadd (a b : double) : double := SFadd prec emax a b.
Definition fsub (a b : double) : double := SFsub prec emax a b.

(** The real number a finite double stands for. *)
Definition value (x : double) : Q :=
  match x with
  | S754_finite s m e => inject_Z (cond_Zopp s (Z.pos m)) * 2 ^ e
  | _ => 0
  end.

(** [a < b]: false when one side is NaN; the two zeros are equal. *)
Definition lt (a b : double) : bool :=
  match a, b with
  | S754_nan, _ | _, S754_nan => false
  | S754_infinity s1, S754_infinity s2 => s1 && negb s2
  | S754_infinity s, _ => s
  | _, S754_infinity s => negb s
  | _, _ => match value a ?= value b with Lt => true | _ => false end
  end.

(** [a > b]. *)
Definition gt (a b : double) : bool := lt b a.

(** [Math.max(a, b)]: NaN when one argument is; [+0] is larger than
    [-0]. *)
Definition Math_max (a b : double) : double :=
  match a, b with
  | S754_nan, _ | _, S754_nan => S754_nan
  | S754_zero true, S754_zero false => b
  | _, _ => if gt b a then b else a
  end.

(** The results of [Math.round]: a whole number, or its argument when that
    is NaN, infinite or [-0]. *)
Inductive rounded :=
| Integer (z : Z)
| NegativeZero
| Infinite (negative : bool)
| NotANumber.

(** [Math.round(x)]: the integer nearest to [x], halves towards plus
    infinity; [-0] for [-0.5 <= x <= -0]. *)
Definition Math_round (x : double) : rounded :=
  match x with
  | S754_nan => NotANumber
  | S754_infinity s => Infinite s
  | S754_zero s => if s then NegativeZero else Integer 0
  | S754_finite s _ _ =>
      let z := Qfloor (value x + (1 # 2)) in
      if s && (z =? 0)%Z then NegativeZero else Integer z
  end.

(** The fields of [getBoundingClientRect()] the hook reads. *)
Record rect := Rect {
  top : double;
  left : double;
  bottom : double;
  width : double;
  height : double
}.

(** [getViewport()]: [window.innerWidth] and [window.innerHeight]. *)
Record viewport := Viewport {
  vwidth : double;
  vheight : double
}.

(** The [position] state: ['bottom'] or ['top']. *)
Inductive position := pos_bottom | pos_top.

(** The [style] state: [{ visibility: 'hidden' }], or the object built by
    [updatePosition] (position fixed, z-index 1000, visibility visible). *)
Inductive style :=
| Hidden
| Fixed (style_top style_left : rounded) (minWidth : double).

(** The literals [8] and [160]. *)
Definition margin : double := Eval vm_compute in whole 8.
Definition min_width : double := Eval vm_compute in whole 160.

(** The local variables [top] and [pos] of [updatePosition] after the
    vertical test. *)
Definition vertical (b m : rect) (vp : viewport) : double * position :=
  let top0 := bottom b in
  if gt (fadd top0 (height m)) (vheight vp)
     && gt (top b) (fadd (height m) margin)
  then (fsub (top b) (height m), pos_top)
  else (top0, pos_bottom).

(** The local variable [adjustedLeft]. *)
Definition horizontal (b m : rect) (vp : viewport) : double :=
  let left0 := left b in
  if gt (fadd left0 (width m)) (vwidth vp)
  then Math_max margin (fsub (fsub (vwidth vp) (width m)) margin)
  else left0.

(** [updatePosition]: [None] when one of the two refs is not attached
    (the function returns before any [setStyle]); otherwise the arguments
    of [setStyle] and [setPosition]. *)
Definition updatePosition (button menu : option rect) (vp : viewport)
  : option (style * position) :=
  match button, menu with
  | Some b, Some m =>
      let '(t, pos) := vertical b m vp in
      let adjustedLeft := horizontal b m vp in
      Some (Fixed (Math_round t) (Math_round adjustedLeft)
                  (Math_max (width b) min_width),
            pos)
  | _, _ => None
  end.

(** The two state variables of the hook. *)
Record hook := Hook {
  hook_style : style;
  hook_position : position
}.

Definition hook_init : hook := Hook Hidden pos_bottom.

(** The effect body, run when [open] (or a ref object) changes; the same
    [updatePosition] is the scroll and resize listener while open. *)
Definition position_effect (open : bool) (button menu : option rect)
           (vp : viewport) (h : hook) : hook :=
  if open then
    match updatePosition button menu vp with
    | Some (s, p) => Hook s p
    | None => h
    end
  else Hook Hidden (hook_position h).

(** The vertical test of [updatePosition], as the code evaluates it. *)
Definition flips (b m : rect) (vp : viewport) : Prop :=
  gt (fadd (bottom b) (height m)) (vheight vp) = true
  ∧ gt (top b) (fadd (height m) margin) = true.

(** The horizontal test. *)
Definition overflows (b m : rect) (vp : viewport) : Prop :=
  gt (fadd (left b) (width m)) (vwidth vp) = true.

End Placement.

(** ** Part II: the Dropdown component *)

Module Dropdown.

Open Scope Z_scope.

(** *** Values, options, props *)

(** Option values: primitives.  [VNum n] is the number [n] (an integer in
    the range where a double is exact), [VStr s] the string [s]. *)
Inductive jsval :=
| VNum (n : Z)
| VStr (s : string).

#[global] Instance jsval_eq_dec : EqDecision jsval.
Proof. solve_decision. Defined.

(** An entry of [options]: [{ label, value }]. *)
Record opt := Opt {
  opt_label : string;
  opt_value : jsval
}.

(** Arrays are objects: [ref_of] is the identity of the object, [elems]
    its contents. *)
Definition ref := nat.

Record array (A : Type) := Array {
  ref_of : ref;
  elems : list A
}.
Arguments Array {A} _ _.
Arguments ref_of {A} _.
Arguments elems {A} _.

(** What [value], [defaultValue] and [internalValue] can hold: nothing
    ([null] or [undefined]), one value, or an array of values. *)
Inductive selection :=
| Null
| Single (v : jsval)
| Multiple (a : array jsval).

(** The props the logic reads.  [onChange] records whether a listener is
    supplied. *)
Record props := Props {
  options : array opt;
  value : selection;
  defaultValue : selection;
  onChange : bool;
  multi : bool;
  disabled : bool
}.

(** What the [highlightedIdx] state can hold.  The handlers store numbers
    ([HNum], [HNaN]).  The highlight effect can also leave there what it
    finds under an inherited name of the value-to-index object (see
    [set_inherited]): the string ["[object Undefined]"] ([HTag]), [false],
    the wrapper object [Object(v)] of one of these primitives, or the
    object [Object.prototype] itself. *)
Inductive hidx :=
| HNum (i : Z)
| HNaN
| HTag
| HFalse
| HNumberObject (i : Z)
| HNaNObject
| HTagObject
| HFalseObject
| HObjectPrototype.

(** The three [useState] variables. *)
Record state := State {
  open : bool;
  highlightedIdx : hidx;
  internalValue : selection
}.

Definition setOpen (b : bool) (s : state) : state :=
  State b (highlightedIdx s) (internalValue s).

Definition setHighlightedIdx (h : hidx) (s : state) : state :=
  State (open s) h (internalValue s).

Definition setInternalValue (v : selection) (s : state) : state :=
  State (open s) (highlightedIdx s) v.

(** A call [onChange(v)]. *)
Inductive notification :=
| Changed (v : selection).

(** *** valueEquals *)

Definition includes (l : list jsval) (v : jsval) : bool :=
  bool_decide (v ∈ l).

(** [valueEquals(v1, v2, multi)].  In the first branch [Null] stands for
    the same one of [null] and [undefined] in both arguments ([===] tells
    the two apart). *)
Definition valueEquals (v1 v2 : selection) (multi : bool) : bool :=
  if negb multi then
    match v1, v2 with
    | Null, Null => true
    | Single a, Single b => bool_decide (a = b)
    | Multiple a, Multiple b => Nat.eqb (ref_of a) (ref_of b)
    | _, _ => false
    end
  else
    match v1, v2 with
    | Multiple a, Multiple b =>
        if negb (Nat.eqb (length (elems a)) (length (elems b))) then false
        else forallb (includes (elems b)) (elems a)
    | _, _ => false
    end.

(** *** Controlled and uncontrolled value *)

(** [value != null]. *)
Definition isControlled (p : props) : bool :=
  match value p with
  | Null => false
  | _ => true
  end.

(** The initial [internalValue]: [defaultValue ?? (multi ? [] : null)];
    [fresh] is the reference of the new empty array. *)
Definition initialValue (p : props) (fresh : ref) : selection :=
  match defaultValue p with
  | Null => if multi p then Multiple (Array fresh []) else Null
  | d => d
  end.

Definition selectedValue (p : props) (s : state) : selection :=
  if isControlled p then value p else internalValue s.

(** *** The value-to-index object *)

(** [String(v)], the property key of a value.  A number is printed in
    decimal, which is what [String] does below [10^21]; the numbers of
    [VNum] are below [2^53]. *)
Definition to_key (v : jsval) : string :=
  match v with
  | VNum n => pretty n
  | VStr s => s
  end.

(** [String(array)]: the keys joined with commas. *)
Fixpoint join_keys (l : list jsval) : string :=
  match l with
  | [] => ""
  | [v] => to_key v
  | v :: l' => to_key v +:+ "," +:+ join_keys l'
  end.

(** The key a non-null [selectedValue] is looked up under. *)
Definition selection_key (sel : selection) : option string :=
  match sel with
  | Null => None
  | Single v => Some (to_key v)
  | Multiple a => Some (join_keys (elems a))
  end.

(** The names every plain object inherits from [Object.prototype]. *)
Definition Object_prototype_keys : list string :=
  [ "constructor"; "__defineGetter__"; "__defineSetter__"; "hasOwnProperty";
    "__lookupGetter__"; "__lookupSetter__"; "isPrototypeOf";
    "propertyIsEnumerable"; "toString"; "valueOf"; "__proto__";
    "toLocaleString" ].

(** [map[k] = i] on a plain object.  Assigning a number to [__proto__]
    goes to the inherited setter, which ignores it. *)
Definition set_prop (map : gmap string nat) (k : string) (i : nat)
  : gmap string nat :=
  if bool_decide (k = "__proto__") then map else <[k := i]> map.

(** [options.reduce((map, o, i) => { map[o.value] = i; return map; }, {})],
    started at index [i]. *)
Fixpoint reduce_from (i : nat) (os : list opt) (map : gmap string nat)
  : gmap string nat :=
  match os with
  | [] => map
  | o :: os' => reduce_from (S i) os' (set_prop map (to_key (opt_value o)) i)
  end.

Definition value2idx (os : list opt) : gmap string nat :=
  reduce_from 0 os ∅.

(** The result of reading [map[k]]: an own property (an index), a member
    inherited from [Object.prototype] (a function or an object, not
    [null]), or [undefined]. *)
Inductive property :=
| Own (i : nat)
| Inherited
| Undefined.

Definition get_prop (map : gmap string nat) (k : string) : property :=
  match map !! k with
  | Some i => Own i
  | None =>
      if bool_decide (k ∈ Object_prototype_keys) then Inherited else Undefined
  end.

(** *** The highlight effect *)

(** [typeof v === 'object']: the wrapper objects and [Object.prototype]. *)
Definition is_object (v : hidx) : bool :=
  match v with
  | HNumberObject _ | HNaNObject | HTagObject | HFalseObject
  | HObjectPrototype => true
  | _ => false
  end.

(** [Object(v)]: the wrapper of a primitive, an object as it is. *)
Definition to_object (v : hidx) : hidx :=
  match v with
  | HNum i => HNumberObject i
  | HNaN => HNaNObject
  | HTag => HTagObject
  | HFalse => HFalseObject
  | o => o
  end.

(** The state after [setHighlightedIdx(m)], where [m] is the member a plain
    object inherits under the name [k] and [prev] the state before.
    [__proto__] reads as the object [Object.prototype], which is stored.
    Every other member is a function, and React calls a function passed to
    a state setter as an updater, [m(prev)], with no receiver:
    [toString()] gives ["[object Undefined]"], [constructor(prev)] is
    [Object(prev)], [isPrototypeOf(prev)] is [false] for a primitive, and
    the remaining calls convert the missing receiver to an object and throw
    a TypeError ([None]: the render throws and React unmounts the
    component). *)
Definition set_inherited (k : string) (prev : hidx) : option hidx :=
  if bool_decide (k = "__proto__") then Some HObjectPrototype
  else if bool_decide (k = "toString") then Some HTag
  else if bool_decide (k = "constructor") then Some (to_object prev)
  else if bool_decide (k = "isPrototypeOf") then
    if is_object prev then None else Some HFalse
  else None.

(** The body of the effect with dependencies
    [[open, selectedValue, multi, value2idx]]: the state it leaves in
    [highlightedIdx].  When the lookup finds an own property or nothing,
    that is the index or 0; when it finds an inherited member, the setter
    receives that member. *)
Definition highlight_effect (p : props) (s : state) : option hidx :=
  if open s then
    if negb (multi p) then
      match selection_key (selectedValue p s) with
      | Some k =>
          match get_prop (value2idx (elems (options p))) k with
          | Own i => Some (HNum (Z.of_nat i))
          | Inherited => set_inherited k (highlightedIdx s)
          | Undefined => Some (HNum 0)
          end
      | None => Some (HNum 0)
      end
    else Some (HNum 0)
  else Some (HNum (-1)).

(** The effect does not find an inherited member: it makes no lookup (the
    menu is closed, or the mode is multi-select), or the lookup finds an
    own property or nothing. *)
Definition plain_lookup (p : props) (s : state) : bool :=
  negb (open s) || multi p
  || match selection_key (selectedValue p s) with
     | Some k =>
         match get_prop (value2idx (elems (options p))) k with
         | Inherited => false
         | _ => true
         end
     | None => true
     end.

(** *** Selection *)

(** [isSelected(optVal)]. *)
Definition isSelected (p : props) (s : state) (optVal : jsval) : bool :=
  if negb (multi p) then
    match selectedValue p s with
    | Single v => bool_decide (v = optVal)
    | _ => false
    end
  else
    match selectedValue p s with
    | Multiple a => includes (elems a) optVal
    | _ => false
    end.

(** [Array.isArray(selectedValue) ? selectedValue : []]. *)
Definition oldVals (sel : selection) : list jsval :=
  match sel with
  | Multiple a => elems a
  | _ => []
  end.

(** [newVals]: [oldVals] without every occurrence of [v], or with [v]
    appended. *)
Definition toggle (old : list jsval) (v : jsval) : list jsval :=
  if includes old v
  then filter (λ x, x ≠ v) old
  else old ++ [v].

(** [if (onChange) onChange(v)]. *)
Definition notify (p : props) (v : selection) : list notification :=
  if onChange p then [Changed v] else [].

(** [handleSelect(option)]; [fresh] is the reference of the array that
    [filter] or the spread creates. *)
Definition handleSelect (p : props) (fresh : ref) (s : state) (o : opt)
  : state * list notification :=
  if disabled p then (s, [])
  else if multi p then
    let newVals :=
      Multiple (Array fresh (toggle (oldVals (selectedValue p s)) (opt_value o))) in
    (if isControlled p then s else setInternalValue newVals s,
     notify p newVals)
  else
    let s1 :=
      if isControlled p then s
      else setInternalValue (Single (opt_value o)) s in
    (setOpen false s1, notify p (Single (opt_value o))).

(** *** Keyboard *)

Inductive key :=
| ArrowDown
| ArrowUp
| Enter
| Space
| Escape
| Tab
| OtherKey.

(** The number a state value converts to in arithmetic and in comparisons
    with a number; [None] is NaN.  [false] is 0, a wrapper converts as its
    primitive, and the strings ["[object Undefined]"] and
    ["[object Object]"] (the primitive of [Object.prototype]) are not
    numerals. *)
Definition to_number (v : hidx) : option Z :=
  match v with
  | HNum i | HNumberObject i => Some i
  | HFalse | HFalseObject => Some 0
  | _ => None
  end.

(** [(idx) => (idx + 1) % options.length]; the remainder by zero is NaN.
    On a string [idx + 1] is a concatenation, and the result is no numeral
    either. *)
Definition arrowDown (n : nat) (idx : hidx) : hidx :=
  match to_number idx with
  | Some i => if Nat.eqb n 0 then HNaN else HNum (Z.rem (i + 1) (Z.of_nat n))
  | None => HNaN
  end.

(** [(idx) => idx <= 0 ? options.length - 1 : idx - 1]; [NaN <= 0] is
    false and [NaN - 1] is NaN. *)
Definition arrowUp (n : nat) (idx : hidx) : hidx :=
  match to_number idx with
  | Some i => if i <=? 0 then HNum (Z.of_nat n - 1) else HNum (i - 1)
  | None => HNaN
  end.

(** [highlightedIdx >= 0 && options[highlightedIdx]].  The property key of
    a number or of its wrapper is its numeral; the key of [false] is
    ["false"], which no array has. *)
Definition highlighted_option (os : list opt) (idx : hidx) : option opt :=
  match idx with
  | HNum i | HNumberObject i => if 0 <=? i then os !! Z.to_nat i else None
  | _ => None
  end.

(** [handleKeyDown(e)] for [e.key = k]. *)
Definition handleKeyDown (p : props) (fresh : ref) (s : state) (k : key)
  : state * list notification :=
  if disabled p then (s, [])
  else if negb (open s) then
    match k with
    | ArrowDown | Enter | Space => (setOpen true s, [])
    | _ => (s, [])
    end
  else
    let n := length (elems (options p)) in
    match k with
    | ArrowDown => (setHighlightedIdx (arrowDown n (highlightedIdx s)) s, [])
    | ArrowUp => (setHighlightedIdx (arrowUp n (highlightedIdx s)) s, [])
    | Enter | Space =>
        match highlighted_option (elems (options p)) (highlightedIdx s) with
        | Some o => handleSelect p fresh s o
        | None => (s, [])
        end
    | Escape | Tab => (setOpen false s, [])
    | OtherKey => (s, [])
    end.

(** The trigger's [onClick]: [!disabled && setOpen((o) => !o)]. *)
Definition handleClick (p : props) (s : state) : state :=
  if disabled p then s else setOpen (negb (open s)) s.

(** *** Outside interaction (useOnClickOutside) *)

(** Where a [mousedown] or [touchstart] lands. *)
Inductive target :=
| InMenu
| InTrigger
| Elsewhere.

(** The [listener] of [useOnClickOutside(menuRef, handler, open,
    [buttonRef])]: whether it calls [handler].  The elements tested are the
    menu and the trigger. *)
Definition outside (t : target) : bool :=
  match t with
  | Elsewhere => true
  | _ => false
  end.

(** *** Rendering and effects *)

(** The dependencies of the highlight effect.  [value2idx] is memoised on
    [options], so it is a new object exactly when [options] is. *)
Record deps := Deps {
  dep_open : bool;
  dep_selectedValue : selection;
  dep_multi : bool;
  dep_value2idx : ref
}.

(** [Object.is] on what [selectedValue] can hold: primitives by value,
    arrays by identity. *)
Definition Object_is (a b : selection) : bool :=
  match a, b with
  | Null, Null => true
  | Single v, Single w => bool_decide (v = w)
  | Multiple x, Multiple y => Nat.eqb (ref_of x) (ref_of y)
  | _, _ => false
  end.

Definition same_deps (a b : deps) : bool :=
  Bool.eqb (dep_open a) (dep_open b)
  && Object_is (dep_selectedValue a) (dep_selectedValue b)
  && Bool.eqb (dep_multi a) (dep_multi b)
  && Nat.eqb (dep_value2idx a) (dep_value2idx b).

Definition deps_of (p : props) (s : state) : deps :=
  Deps (open s) (selectedValue p s) (multi p) (ref_of (options p)).

(** A mounted component between two events: its props, its state, the
    dependencies seen by the last render, and the next unused array
    reference. *)
Record world := World {
  w_props : props;
  w_state : state;
  w_deps : deps;
  w_next : ref
}.

(** Render with props [p] and state [s], then run the highlight effect if
    a dependency differs from [prev].  The effect only sets
    [highlightedIdx], which is not a dependency, so one pass settles.
    [None]: the updater the effect passed throws in the next render. *)
Definition commit (p : props) (s : state) (prev : deps) (next : ref)
  : option world :=
  let d := deps_of p s in
  if same_deps prev d then Some (World p s d next)
  else
    match highlight_effect p s with
    | Some h => Some (World p (setHighlightedIdx h s) d next)
    | None => None
    end.

Definition selection_ref (sel : selection) : ref :=
  match sel with
  | Multiple a => ref_of a
  | _ => 0%nat
  end.

(** A reference above those of the arrays in the props. *)
Definition first_free (p : props) : ref :=
  S (Nat.max (ref_of (options p))
             (Nat.max (selection_ref (value p)) (selection_ref (defaultValue p)))).

(** The first render; the effect always runs after it. *)
Definition mount (p : props) : option world :=
  let fresh := first_free p in
  let s := State false (HNum (-1)) (initialValue p fresh) in
  match highlight_effect p s with
  | Some h => Some (World p (setHighlightedIdx h s) (deps_of p s) (S fresh))
  | None => None
  end.

(** *** Events *)

Inductive event :=
| TriggerClick
| KeyDown (k : key)
| OptionClick (i : nat)
| OptionMouseEnter (i : nat)
| PointerDown (t : target)
| ParentRender (p : props).

(** One event, handled to completion: the handler, then the render and the
    effect.  The option elements exist only while the menu is open, and the
    outside listener is attached only while it is open. *)
Definition step (w : world) (e : event)
  : option (world * list notification) :=
  let p := w_props w in
  let s := w_state w in
  let settle (r : state * list notification) :=
    match commit p (fst r) (w_deps w) (S (w_next w)) with
    | Some w' => Some (w', snd r)
    | None => None
    end in
  match e with
  | TriggerClick => settle (handleClick p s, [])
  | KeyDown k => settle (handleKeyDown p (w_next w) s k)
  | OptionClick i =>
      match (if open s then elems (options p) !! i else None) with
      | Some o => settle (handleSelect p (w_next w) s o)
      | None => Some (w, [])
      end
  | OptionMouseEnter i =>
      match (if open s then elems (options p) !! i else None) with
      | Some _ => settle (setHighlightedIdx (HNum (Z.of_nat i)) s, [])
      | None => Some (w, [])
      end
  | PointerDown t =>
      if open s && outside t then settle (setOpen false s, [])
      else Some (w, [])
  | ParentRender p' =>
      match commit p' s (w_deps w) (Nat.max (w_next w) (first_free p')) with
      | Some w' => Some (w', [])
      | None => None
      end
  end.

(** Props are immutable: a parent that passes the same [options] array
    passes the same contents.  Under this condition the memoised
    [value2idx] is the one of the current options, as [highlight_effect]
    takes it. *)
Definition event_ok (w : world) (e : event) : Prop :=
  match e with
  | ParentRender p' =>
      ref_of (options p') = ref_of (options (w_props w)) →
      elems (options p') = elems (options (w_props w))
  | _ => True
  end.

(** The worlds a mounted component can be in. *)
Inductive reachable : world → Prop :=
| reachable_mount p w :
    mount p = Some w → reachable w
| reachable_step w e w' out :
    reachable w → event_ok w e → step w e = Some (w', out) → reachable w'.

(** The worlds reached without ever rendering an open single-select menu
    whose selected value has the key of an inherited member of the
    value-to-index object. *)
Definition plain (w : world) : bool :=
  plain_lookup (w_props w) (w_state w).

Inductive reachable_plain : world → Prop :=
| plain_mount p w :
    mount p = Some w → plain w = true → reachable_plain w
| plain_step w e w' out :
    reachable_plain w → event_ok w e → step w e = Some (w', out) →
    plain w' = true → reachable_plain w'.

(** Running a list of events. *)
Fixpoint run (w : world) (es : list event) : option world :=
  match es with
  | [] => Some w
  | e :: es' =>
      match step w e with
      | Some (w', _) => run w' es'
      | None => None
      end
  end.

(** Running a list of events through [plain] worlds only. *)
Fixpoint run_plain (w : world) (es : list event) : option world :=
  match es with
  | [] => Some w
  | e :: es' =>
      match step w e with
      | Some (w', _) => if plain w' then run_plain w' es' else None
      | None => None
      end
  end.

(** *** Predicates used by the statements *)

(** The last index of [os] whose value has key [k]. *)
Fixpoint last_index (k : string) (os : list opt) : option nat :=
  match os with
  | [] => None
  | o :: os' =>
      match last_index k os' with
      | Some j => Some (S j)
      | None => if bool_decide (to_key (opt_value o) = k) then Some 0%nat else None
      end
  end.

(** [h] is -1 or an index into a list of [n] options. *)
Definition valid_idx (n : nat) (h : hidx) : Prop :=
  ∃ i, h = HNum i ∧ (i = -1 ∨ 0 <= i < Z.of_nat n).

(** A closed menu has no highlight, and an open menu over a non-empty list
    highlights one of its options. *)
Definition highlight_ok (p : props) (s : state) : Prop :=
  (open s = false → highlightedIdx s = HNum (-1))
  ∧ (open s = true → elems (options p) ≠ [] →
     ∃ i, highlightedIdx s = HNum i
          ∧ 0 <= i < Z.of_nat (length (elems (options p)))).

(** What holds between two events as long as no lookup found an inherited
    member: the recorded dependencies are those of the last render, and the
    highlight is as above. *)
Record settled (w : world) : Prop := Settled {
  settled_deps : w_deps w = deps_of (w_props w) (w_state w);
  settled_highlight : highlight_ok (w_props w) (w_state w)
}.

(** Every array the component holds was allocated before [w_next]. *)
Definition refs_below (w : world) : Prop :=
  (selection_ref (value (w_props w)) < w_next w)%nat
  ∧ (selection_ref (internalValue (w_state w)) < w_next w)%nat.

(** The first character of a decimal numeral: a digit or the minus sign
    (the empty string passes). *)
Definition numeric_head (s : string) : bool :=
  match s with
  | EmptyString => true
  | String c _ => bool_decide (c ∈ String.list_ascii_of_string "0123456789-")
  end.

(** *** Sample widgets *)

(** The options of the end-to-end scenario: A, B, C with values 1, 2, 3. *)
Definition abc : list opt :=
  [Opt "A" (VNum 1); Opt "B" (VNum 2); Opt "C" (VNum 3)].

(** Uncontrolled, single-select, nothing selected. *)
Definition abc_props : props :=
  Props (Array 0%nat abc) Null Null true false false.

(** Uncontrolled, multi-select. *)
Definition abc_multi : props :=
  Props (Array 0%nat abc) Null Null true true false.

(** Controlled, single-select, value 1. *)
Definition abc_controlled : props :=
  Props (Array 0%nat abc) (Single (VNum 1)) Null true false false.

(** Controlled, multi-select, value [[1]]. *)
Definition abc_multi_controlled : props :=
  Props (Array 0%nat abc) (Multiple (Array 1%nat [VNum 1])) Null true true false.

(** [abc_multi], disabled by the parent. *)
Definition abc_multi_disabled : props :=
  Props (Array 0%nat abc) Null Null true true true.

(** [abc_controlled], disabled by the parent. *)
Definition abc_controlled_disabled : props :=
  Props (Array 0%nat abc) (Single (VNum 1)) Null true false true.

(** No options at all. *)
Definition no_options : props :=
  Props (Array 0%nat []) Null Null true false false.

(** Numeric option values 7 and 1, and the string ["1"] as default value. *)
Definition mixed_props : props :=
  Props (Array 0%nat [Opt "A" (VNum 7); Opt "B" (VNum 1)])
        Null (Single (VStr "1")) true false false.

(** [abc_props] with the default value ['toString'], which no option
    carries. *)
Definition abc_toString : props :=
  Props (Array 0%nat abc) Null (Single (VStr "toString")) true false false.

(** [abc_props] after a click on the trigger and one ArrowDown. *)
Definition abc_second : world :=
  World abc_props (State true (HNum 1) Null) (Deps true Null false 0%nat) 4%nat.

(** [abc_multi] after a click on the trigger and two ArrowDown. *)
Definition abc_multi_third : world :=
  World abc_multi (State true (HNum 2) (Multiple (Array 1%nat [])))
        (Deps true (Multiple (Array 1%nat [])) true 0%nat) 5%nat.

(** *** The trigger label and the option classes *)

(** Truthiness of a primitive: [0] and the empty string are falsy. *)
Definition truthy (v : jsval) : bool :=
  match v with
  | VNum n => negb (n =? 0)
  | VStr s => negb (bool_decide (s = ""))
  end.

(** [!selectedValue]: null, [0] and the empty string; an array is truthy
    even when empty. *)
Definition falsy (sel : selection) : bool :=
  match sel with
  | Null => true
  | Single v => negb (truthy v)
  | Multiple _ => false
  end.

(** [!selectedValue.length] on a truthy value: a number has no [length],
    a string and an array have theirs. *)
Definition no_length (sel : selection) : bool :=
  match sel with
  | Null => true
  | Single (VNum _) => true
  | Single (VStr s) => bool_decide (s = "")
  | Multiple a => bool_decide (elems a = [])
  end.

(** [s.includes(sub)] on strings: [sub] occurs in [s]. *)
Fixpoint str_includes (s sub : string) : bool :=
  String.prefix sub s
  || match s with
     | EmptyString => false
     | String _ s' => str_includes s' sub
     end.

(** [selectedValue.includes(optVal)] on a value that has the method: an
    array looks for the value itself, a string for [String(optVal)] as a
    substring. *)
Definition selection_includes (sel : selection) (optVal : jsval) : bool :=
  match sel with
  | Multiple a => includes (elems a) optVal
  | Single (VStr s) => str_includes s (to_key optVal)
  | _ => false
  end.

(** [options.find((o) => o.value === selectedValue)]. *)
Definition find_selected (sel : selection) (os : list opt) : option opt :=
  match sel with
  | Single v => List.find (λ o, bool_decide (opt_value o = v)) os
  | _ => None
  end.

(** [labels.join(', ')]. *)
Fixpoint join_labels (l : list string) : string :=
  match l with
  | [] => ""
  | [x] => x
  | x :: l' => x +:+ ", " +:+ join_labels l'
  end.

(** [getA11ySelectedLabel()]; labels and the placeholder are strings. *)
Definition getA11ySelectedLabel (p : props) (s : state) (placeholder : string)
  : string :=
  let sel := selectedValue p s in
  let os := elems (options p) in
  if falsy sel || (multi p && no_length sel) then placeholder
  else if negb (multi p) then
    match find_selected sel os with
    | Some o => opt_label o
    | None => placeholder
    end
  else
    let joined :=
      join_labels
        (map opt_label (filter (λ o, selection_includes sel (opt_value o) = true) os)) in
    if bool_decide (joined = "") then placeholder else joined.

(** The argument of the caller's [renderValue]: one option or [null] in
    single-select mode, a list of options in multi-select mode. *)
Inductive rendered :=
| RenderedOption (o : option opt)
| RenderedOptions (l : list opt).

(** The argument [renderedValue] passes to [renderValue].  In multi-select
    mode the filter calls [selectedValue?.includes]: a null value selects
    nothing, and a number has no such method, so the call throws ([None]) as
    soon as there is an option to test. *)
Definition renderValue_arg (p : props) (s : state) : option rendered :=
  let sel := selectedValue p s in
  let os := elems (options p) in
  if negb (multi p) then Some (RenderedOption (find_selected sel os))
  else
    match sel with
    | Null => Some (RenderedOptions [])
    | Single (VNum _) =>
        match os with
        | [] => Some (RenderedOptions [])
        | _ => None
        end
    | _ =>
        Some (RenderedOptions
                (filter (λ o, selection_includes sel (opt_value o) = true) os))
    end.

(** The body of the [renderedValue] memo: the caller's [renderValue] on
    the argument above, or the default label. *)
Definition renderedValue (renderValue : option (rendered → string))
           (p : props) (s : state) (placeholder : string) : option string :=
  match renderValue with
  | Some f =>
      match renderValue_arg p s with
      | Some a => Some (f a)
      | None => None
      end
  | None => Some (getA11ySelectedLabel p s placeholder)
  end.

(** The class [dropdown-option--highlighted] of option [i]:
    [i === highlightedIdx], which only a number satisfies. *)
Definition option_highlighted (i : nat) (h : hidx) : bool :=
  match h with
  | HNum z => Z.of_nat i =? z
  | _ => false
  end.

(** *** useOnClickOutside *)

(** The [listener] on an event whose target is tested by [contains]:
    whether it calls [handler].  [ref_current] is [ref.current]; an extra
    ref may be missing or not attached, and such entries are filtered
    out. *)
Definition listener {E : Type} (contains : E → bool) (ref_current : option E)
           (extraRefs : list (option (option E))) : bool :=
  let elements :=
    ref_current :: map Some (omap (λ r, r ≫= id) extraRefs) in
  negb (existsb (λ el, match el with
                       | Some e => contains e
                       | None => false
                       end) elements).

(** The hook: no listener is attached unless [active]. *)
Definition useOnClickOutside {E : Type} (active : bool) (contains : E → bool)
           (ref_current : option E) (extraRefs : list (option (option E)))
  : bool :=
  active && listener contains ref_current extraRefs.

(** The two elements of the component, and whether each contains the
    target of a pointer event. *)
Inductive element :=
| MenuElement
| TriggerElement.

Definition element_contains (t : target) (e : element) : bool :=
  match e, t with
  | MenuElement, InMenu => true
  | TriggerElement, InTrigger => true
  | _, _ => false
  end.

End Dropdown.

(** * Properties *)

(** ** Placement *)

Section PlacementFacts.

Import Placement.
Open Scope Q_scope.

Lemma value_margin : value margin == 8.
Proof. reflexivity. Qed.

Lemma Math_round_margin : Math_round margin = Integer 8.
Proof. reflexivity. Qed.

Lemma gt_not_nan (a b : double) : gt a b = true → a ≠ S754_nan ∧ b ≠ S754_nan.
Proof.
  unfold gt, lt. destruct a, b; try discriminate; split; discriminate.
Qed.

(** [Math.max(8, x)] is [x] when [x > 8], and 8 for every other number. *)
Lemma Math_max_margin_r (x : double) :
  gt x margin = true → Math_max margin x = x.
Proof.
  intros H. unfold Math_max, margin in *. destruct x; try discriminate H;
    now rewrite H.
Qed.

Lemma Math_max_margin_l (x : double) :
  x ≠ S754_nan → gt x margin = false → Math_max margin x = margin.
Proof.
  intros Hn H. unfold Math_max, margin in *. destruct x; try congruence;
    now rewrite H.
Qed.

(** Rounding a number above 8 gives a whole number that is at least 8, or
    plus infinity. *)
Lemma Math_round_above_margin (x : double) :
  gt x margin = true →
  Math_round x = Infinite false ∨ ∃ z, Math_round x = Integer z ∧ (8 <= z)%Z.
Proof.
  intros H. destruct x as [s|s| |s m e]; try discriminate H.
  - destruct s; [discriminate H|now left].
  - right. unfold gt, lt, margin in H.
    fold margin in H.
    destruct (value margin ?= value (S754_finite s m e)) eqn:E;
      try discriminate H.
    rewrite <- Qlt_alt, value_margin in E.
    assert (Hz : (8 <= Qfloor (value (S754_finite s m e) + (1 # 2)))%Z).
    { rewrite <- (Qfloor_Z 8). apply Qfloor_resp_le.
      change (inject_Z 8) with 8. lra. }
    unfold Math_round.
    destruct (Z.eqb_spec (Qfloor (value (S754_finite s m e) + (1 # 2))) 0)
      as [E0|E0]; [lia|].
    rewrite andb_false_r. eauto.
Qed.

Lemma vertical_flips b m vp :
  flips b m vp → vertical b m vp = (fsub (top b) (height m), pos_top).
Proof. intros [H1 H2]. unfold vertical. now rewrite H1, H2. Qed.

Lemma vertical_default b m vp :
  ¬ flips b m vp → vertical b m vp = (bottom b, pos_bottom).
Proof.
  intros H. unfold vertical.
  destruct (gt (fadd (bottom b) (height m)) (vheight vp)) eqn:E1;
    destruct (gt (top b) (fadd (height m) margin)) eqn:E2; try reflexivity.
  exfalso. apply H. now split.
Qed.

Lemma horizontal_overflows b m vp :
  overflows b m vp →
  horizontal b m vp = Math_max margin (fsub (fsub (vwidth vp) (width m)) margin).
Proof. intros H. unfold horizontal. now rewrite H. Qed.

Lemma horizontal_default b m vp :
  ¬ overflows b m vp → horizontal b m vp = left b.
Proof.
  intros H. unfold horizontal.
  destruct (gt (fadd (left b) (width m)) (vwidth vp)) eqn:E; [|reflexivity].
  exfalso. now apply H.
Qed.

Lemma position_effect_hidden (button menu : option rect) (vp : viewport)
      (h : hook) :
  hook_style (position_effect false button menu vp h) = Hidden
  ∧ (button = None ∨ menu = None → position_effect true button menu vp h = h).
Proof.
  split; [reflexivity|].
  intros [-> | ->]; simpl; [reflexivity|now destruct button].
Qed.

(** Each sum and difference is rounded to a double, as in the code:
    [2^53 + 1] is [2^53], [300.7 - 100.2] is [200.5] and
    [1000 - 191.50000000000003] is [808.5]. *)
Example double_arithmetic :
  gt (fadd (whole (2 ^ 53)) (whole 1)) (whole (2 ^ 53)) = false
  ∧ Math_round (fsub (decimal 3007 1) (decimal 1002 1)) = Integer 201
  ∧ Math_round (fsub (fsub (whole 1000) (number (383 * 2 ^ 44 + 1) (-45))) margin)
    = Integer 801
  ∧ Math_round (decimal 25 1) = Integer 3
  ∧ Math_round (decimal (-25) 1) = Integer (-2)
  ∧ Math_round (decimal (-5) 1) = NegativeZero.
Proof. vm_compute. repeat split. Qed.

End PlacementFacts.

Section PlacementClaims.

Import Placement.
Open Scope Q_scope.

(** C8, as amended: the menu goes below the trigger ([top] = the trigger's
    bottom edge, position ['bottom']) unless it would overflow the viewport
    bottom and there is more than [height + 8] above the trigger, in which
    case it flips ([top] = trigger top minus menu height, position ['top']);
    when it overflows and there is no room above either, the placement stays
    at the bottom.  [left] is the trigger's left edge when the menu does not
    overflow to the right.  The sums, the difference and the comparisons
    are those of the code, on doubles, and every coordinate written to the
    style goes through [Math.round]. *)
Theorem updatePosition_vertical (b m : rect) (vp : viewport) :
  ∃ t l w pos,
    updatePosition (Some b) (Some m) vp = Some (Fixed t l w, pos) ∧
    (flips b m vp → t = Math_round (fsub (top b) (height m)) ∧ pos = pos_top) ∧
    (¬ flips b m vp → t = Math_round (bottom b) ∧ pos = pos_bottom) ∧
    (gt (fadd (bottom b) (height m)) (vheight vp) = true →
     gt (top b) (fadd (height m) margin) = false →
     t = Math_round (bottom b) ∧ pos = pos_bottom) ∧
    (¬ overflows b m vp → l = Math_round (left b)).
Proof.
  unfold updatePosition.
  destruct (vertical b m vp) as [t pos] eqn:Ev.
  exists (Math_round t), (Math_round (horizontal b m vp)),
         (Math_max (width b) min_width), pos.
  split; [reflexivity|]. repeat split.
  - rewrite (vertical_flips _ _ _ H) in Ev. congruence.
  - rewrite (vertical_flips _ _ _ H) in Ev. congruence.
  - rewrite (vertical_default _ _ _ H) in Ev. congruence.
  - rewrite (vertical_default _ _ _ H) in Ev. congruence.
  - assert (Hn : ¬ flips b m vp) by (intros [_ Hr]; congruence).
    rewrite (vertical_default _ _ _ Hn) in Ev. congruence.
  - assert (Hn : ¬ flips b m vp) by (intros [_ Hr]; congruence).
    rewrite (vertical_default _ _ _ Hn) in Ev. congruence.
  - intros H. now rewrite (horizontal_default _ _ _ H).
Qed.

(** C8 as stated fails on a fractional layout: trigger top 100.5, menu
    height 50, viewport height 130.  The test flips and [100.5 - 50] is
    the double 50.5, but the style gets [top = 51]. *)
Lemma updatePosition_vertical_unrounded_fails :
  let b := Rect (decimal 1005 1) (whole 10) (decimal 1205 1) (whole 100) (whole 20) in
  let m := Rect (whole 0) (whole 0) (whole 50) (whole 120) (whole 50) in
  let vp := Viewport (whole 800) (whole 130) in
  flips b m vp ∧
  ∃ t l w pos,
    updatePosition (Some b) (Some m) vp = Some (Fixed t l w, pos) ∧
    pos = pos_top ∧
    t = Integer 51 ∧
    fsub (top b) (height m) = decimal 505 1 ∧
    value (fsub (top b) (height m)) == 101 # 2.
Proof.
  cbv zeta. split.
  - split; reflexivity.
  - eexists _, _, _, _. split; [reflexivity|]. repeat split.
Qed.

(** C9, as amended: when the menu overflows the right edge
    ([left + width > viewport width]) the style's [left] is
    [Math.round(Math.max(8, viewport width - menu width - 8))], with the
    code's subtractions on doubles; this is the rounded difference when the
    difference is greater than 8, and 8 for every other number. *)
Theorem updatePosition_horizontal (b m : rect) (vp : viewport) :
  overflows b m vp →
  let x := fsub (fsub (vwidth vp) (width m)) margin in
  ∃ t l w pos,
    updatePosition (Some b) (Some m) vp = Some (Fixed t l w, pos) ∧
    l = Math_round (Math_max margin x) ∧
    (gt x margin = true → l = Math_round x) ∧
    (gt x margin = false → x ≠ S754_nan → l = Integer 8).
Proof.
  intros Ho x. unfold updatePosition.
  destruct (vertical b m vp) as [t pos].
  rewrite (horizontal_overflows _ _ _ Ho). fold x.
  eexists _, _, _, _. split; [reflexivity|]. split; [reflexivity|]. split.
  - intros H. now rewrite (Math_max_margin_r _ H).
  - intros H Hn. now rewrite (Math_max_margin_l _ Hn H).
Qed.

(** The theorem at viewport width 1000, menu width 191.50000000000003
    (the double [191.5 + 2^-45]) and trigger left 900: [1000 - width]
    rounds to 808.5, and [left] is 801. *)
Lemma updatePosition_horizontal_witness :
  let b := Rect (whole 100) (whole 900) (whole 120) (whole 100) (whole 20) in
  let m := Rect (whole 0) (whole 0) (whole 50) (number (383 * 2 ^ 44 + 1) (-45)) (whole 50) in
  let vp := Viewport (whole 1000) (whole 800) in
  overflows b m vp ∧
  let x := fsub (fsub (vwidth vp) (width m)) margin in
  ∃ t l w pos,
    updatePosition (Some b) (Some m) vp = Some (Fixed t l w, pos) ∧
    l = Math_round (Math_max margin x) ∧
    (gt x margin = true → l = Math_round x) ∧
    (gt x margin = false → x ≠ S754_nan → l = Integer 8).
Proof.
  cbv zeta. split.
  - reflexivity.
  - apply (updatePosition_horizontal
             (Rect (whole 100) (whole 900) (whole 120) (whole 100) (whole 20))
             (Rect (whole 0) (whole 0) (whole 50) (number (383 * 2 ^ 44 + 1) (-45)) (whole 50))
             (Viewport (whole 1000) (whole 800))).
    reflexivity.
Defined.

(** C9 as stated fails when the menu is wider than the viewport minus the
    two margins: viewport 100 wide, menu 200 wide, trigger at 10.  The menu
    is wider than [100 - 10], yet [left] is 8, not [100 - 200 - 8]. *)
Lemma updatePosition_horizontal_margin_wins :
  let b := Rect (whole 100) (whole 10) (whole 120) (whole 80) (whole 20) in
  let m := Rect (whole 0) (whole 0) (whole 50) (whole 200) (whole 50) in
  let vp := Viewport (whole 100) (whole 800) in
  gt (width m) (fsub (vwidth vp) (left b)) = true ∧
  overflows b m vp ∧
  ∃ t l w pos,
    updatePosition (Some b) (Some m) vp = Some (Fixed t l w, pos) ∧
    l = Integer 8 ∧
    fsub (fsub (vwidth vp) (width m)) margin = whole (-108).
Proof.
  cbv zeta. split; [reflexivity|]. split; [reflexivity|].
  eexists _, _, _, _. split; [reflexivity|]. split; reflexivity.
Qed.

End PlacementClaims.

(** ** The value-to-index object *)

Section Value2idx.

Import Dropdown.

Lemma last_index_Some (k : string) (os : list opt) (j : nat) :
  last_index k os = Some j →
  (j < length os)%nat
  ∧ (∃ o, os !! j = Some o ∧ to_key (opt_value o) = k)
  ∧ (∀ j' o', (j < j')%nat → os !! j' = Some o' → to_key (opt_value o') ≠ k).
Proof.
  revert j. induction os as [|o os IH]; intros j; simpl; [discriminate|].
  destruct (last_index k os) as [j0|] eqn:E.
  - intros [= <-]. destruct (IH j0 eq_refl) as (Hlt & Hat & Hlast).
    split; [lia|]. split; [exact Hat|].
    intros [|j'] o' Hj; [lia|]. simpl. apply Hlast. lia.
  - case_bool_decide as Hk; [|discriminate].
    intros [= <-]. split; [lia|]. split; [eauto|].
    intros [|j'] o' Hj; [lia|]. simpl. intros Hat Hk'.
    clear IH Hj. revert j' Hat.
    induction os as [|o1 os IH]; intros j' Hat; [destruct j'; discriminate|].
    simpl in E. destruct (last_index k os) eqn:E'; [discriminate|].
    case_bool_decide as Hk1; [discriminate|].
    destruct j' as [|j']; simpl in Hat.
    + congruence.
    + eapply IH; eauto.
Qed.

Lemma last_index_None (k : string) (os : list opt) :
  last_index k os = None ↔ ∀ o, o ∈ os → to_key (opt_value o) ≠ k.
Proof.
  induction os as [|o os IH]; simpl.
  - split; [intros _ o Ho; inversion Ho|reflexivity].
  - destruct (last_index k os) as [j|] eqn:E.
    + split; [discriminate|]. intros H. exfalso.
      assert (Hn : Some j = None); [|discriminate].
      apply IH. intros o' Ho'. apply H. now right.
    + case_bool_decide as Hk.
      * split; [discriminate|]. intros H. exfalso. apply (H o); [left|exact Hk].
      * split; [|reflexivity]. intros _ o' Ho'.
        apply elem_of_cons in Ho' as [->|Ho']; [exact Hk|].
        now apply IH.
Qed.

(** The object built by the reduce maps a key to the last index that
    carries it; [__proto__] never becomes an own property. *)
Lemma reduce_from_lookup (i : nat) (os : list opt) (map : gmap string nat)
      (k : string) :
  reduce_from i os map !! k =
  if bool_decide (k = "__proto__") then map !! k
  else match last_index k os with
       | Some j => Some (i + j)%nat
       | None => map !! k
       end.
Proof.
  revert i map. induction os as [|o os IH]; intros i map; simpl.
  - now case_bool_decide.
  - rewrite IH. case_bool_decide as Hp.
    + unfold set_prop. case_bool_decide as Hk; [reflexivity|].
      rewrite lookup_insert_ne; [reflexivity|congruence].
    + destruct (last_index k os) as [j|] eqn:E.
      * f_equal. lia.
      * unfold set_prop. case_bool_decide as Hk.
        -- case_bool_decide as Hk'; [congruence|reflexivity].
        -- case_bool_decide as Hk'.
           ++ subst k. rewrite lookup_insert_eq. f_equal. lia.
           ++ now rewrite lookup_insert_ne.
Qed.

Lemma value2idx_lookup (os : list opt) (k : string) :
  value2idx os !! k =
  if bool_decide (k = "__proto__") then None else last_index k os.
Proof.
  unfold value2idx. rewrite reduce_from_lookup, lookup_empty.
  case_bool_decide; [reflexivity|]. now destruct (last_index k os).
Qed.

Lemma get_prop_Own (os : list opt) (k : string) (j : nat) :
  get_prop (value2idx os) k = Own j → last_index k os = Some j.
Proof.
  unfold get_prop. rewrite value2idx_lookup.
  case_bool_decide as Hp.
  - case_bool_decide; discriminate.
  - destruct (last_index k os); [congruence|]. case_bool_decide; discriminate.
Qed.

Lemma get_prop_Own_lt (os : list opt) (k : string) (j : nat) :
  get_prop (value2idx os) k = Own j → (j < length os)%nat.
Proof.
  intros H. apply get_prop_Own in H. now apply last_index_Some in H.
Qed.

End Value2idx.

(** ** The highlight effect and the render cycle *)

Section Effect.

Import Dropdown.
Open Scope Z_scope.

Lemma highlight_effect_closed (p : props) (s : state) :
  open s = false → highlight_effect p s = Some (HNum (-1)).
Proof. intros H. unfold highlight_effect. now rewrite H. Qed.

Lemma highlight_effect_multi (p : props) (s : state) :
  open s = true → multi p = true → highlight_effect p s = Some (HNum 0).
Proof. intros H1 H2. unfold highlight_effect. now rewrite H1, H2. Qed.

Lemma plain_lookup_setHighlightedIdx (p : props) (s : state) (h : hidx) :
  plain_lookup p (setHighlightedIdx h s) = plain_lookup p s.
Proof. reflexivity. Qed.

(** A lookup that finds no inherited member leaves an index of the list. *)
Lemma highlight_effect_range (p : props) (s : state) (h : hidx) :
  open s = true → elems (options p) ≠ [] → plain_lookup p s = true →
  highlight_effect p s = Some h →
  ∃ i, h = HNum i ∧ 0 <= i < Z.of_nat (length (elems (options p))).
Proof.
  intros Ho Hne. unfold highlight_effect, plain_lookup. rewrite Ho. simpl.
  assert (Hlen : (0 < length (elems (options p)))%nat).
  { destruct (elems (options p)); [congruence|simpl; lia]. }
  assert (H0 : ∀ h', Some (HNum 0) = Some h' →
            ∃ i, h' = HNum i ∧ 0 <= i < Z.of_nat (length (elems (options p)))).
  { intros h' [= <-]. exists 0. split; [reflexivity|lia]. }
  destruct (multi p); simpl; [intros _; apply H0|].
  destruct (selection_key (selectedValue p s)) as [k|]; [|intros _; apply H0].
  destruct (get_prop (value2idx (elems (options p))) k) as [j| |] eqn:E;
    [|discriminate|intros _; apply H0].
  intros _ [= <-]. apply get_prop_Own_lt in E.
  exists (Z.of_nat j). split; [reflexivity|lia].
Qed.

(** The effect always leaves a state, except when the updater it passed
    throws. *)
Lemma highlight_effect_None (p : props) (s : state) :
  highlight_effect p s = None ↔
  open s = true ∧ multi p = false
  ∧ ∃ k, selection_key (selectedValue p s) = Some k
         ∧ get_prop (value2idx (elems (options p))) k = Inherited
         ∧ set_inherited k (highlightedIdx s) = None.
Proof.
  unfold highlight_effect. split.
  - destruct (open s); [|discriminate].
    destruct (multi p); [discriminate|]. simpl.
    destruct (selection_key (selectedValue p s)) as [k|]; [|discriminate].
    destruct (get_prop (value2idx (elems (options p))) k) eqn:E;
      try discriminate.
    intros H. repeat split. eauto.
  - intros (-> & -> & k & -> & -> & ->). reflexivity.
Qed.

Lemma highlight_effect_plain (p : props) (s : state) :
  plain_lookup p s = true → ∃ h, highlight_effect p s = Some h.
Proof.
  intros Hp. destruct (highlight_effect p s) as [h|] eqn:E; [eauto|].
  apply highlight_effect_None in E as (Ho & Hm & k & Hk & Hg & _).
  unfold plain_lookup in Hp. rewrite Ho, Hm, Hk, Hg in Hp. discriminate.
Qed.

Lemma highlight_effect_ok (p : props) (s : state) (h : hidx) :
  plain_lookup p s = true →
  highlight_effect p s = Some h → highlight_ok p (setHighlightedIdx h s).
Proof.
  intros Hp H. split; simpl.
  - intros Ho. rewrite (highlight_effect_closed _ _ Ho) in H. congruence.
  - intros Ho Hne. eapply highlight_effect_range; eauto.
Qed.

Lemma deps_of_setHighlightedIdx (p : props) (s : state) (h : hidx) :
  deps_of p (setHighlightedIdx h s) = deps_of p s.
Proof. reflexivity. Qed.

Lemma Object_is_refl (v : selection) : Object_is v v = true.
Proof.
  destruct v; simpl; [reflexivity|now apply bool_decide_eq_true|apply Nat.eqb_refl].
Qed.

Lemma same_deps_refl (d : deps) : same_deps d d = true.
Proof.
  unfold same_deps.
  now rewrite !Bool.eqb_reflx, Object_is_refl, Nat.eqb_refl.
Qed.

Lemma same_deps_inv (a b : deps) :
  same_deps a b = true →
  dep_open a = dep_open b
  ∧ Object_is (dep_selectedValue a) (dep_selectedValue b) = true
  ∧ dep_multi a = dep_multi b
  ∧ dep_value2idx a = dep_value2idx b.
Proof.
  unfold same_deps. rewrite !andb_true_iff.
  intros [[[H1 H2] H3] H4].
  apply Bool.eqb_prop in H1. apply Bool.eqb_prop in H3.
  apply Nat.eqb_eq in H4. auto.
Qed.

(** What a successful render leaves behind. *)
Lemma commit_Some (p : props) (s : state) (prev : deps) (next : ref)
      (w' : world) :
  commit p s prev next = Some w' →
  w_props w' = p ∧ w_next w' = next ∧ w_deps w' = deps_of p s
  ∧ open (w_state w') = open s
  ∧ internalValue (w_state w') = internalValue s
  ∧ ((same_deps prev (deps_of p s) = true ∧ w_state w' = s)
     ∨ (same_deps prev (deps_of p s) = false
        ∧ ∃ h, highlight_effect p s = Some h
               ∧ w_state w' = setHighlightedIdx h s)).
Proof.
  unfold commit. destruct (same_deps prev (deps_of p s)) eqn:E.
  - intros [= <-]. simpl. repeat split; auto.
  - destruct (highlight_effect p s) as [h|] eqn:Eh; [|discriminate].
    intros [= <-]. simpl. repeat split; eauto.
Qed.

(** The dependencies a render records are those of the world it leaves. *)
Lemma commit_deps (p : props) (s : state) (prev : deps) (next : ref)
      (w' : world) :
  commit p s prev next = Some w' →
  w_deps w' = deps_of (w_props w') (w_state w').
Proof.
  intros Hc.
  destruct (commit_Some _ _ _ _ _ Hc) as (Hp & _ & Hd & _ & _ & Hs).
  destruct Hs as [[_ Hst]|[_ (h & _ & Hst)]]; rewrite Hp, Hst; exact Hd.
Qed.

(** A render settles the world as soon as the state it renders either
    re-runs the effect, on a lookup that finds no inherited member, or
    already has a good highlight. *)
Lemma commit_settled (p : props) (s : state) (prev : deps) (next : ref)
      (w' : world) :
  commit p s prev next = Some w' →
  plain w' = true →
  (same_deps prev (deps_of p s) = true → highlight_ok p s) →
  settled w'.
Proof.
  intros Hc Hpl Hok.
  destruct (commit_Some _ _ _ _ _ Hc) as (Hp & _ & Hd & _ & _ & Hs).
  unfold plain in Hpl.
  destruct Hs as [[Hsame Hst]|[Hdiff (h & Hh & Hst)]].
  - split; rewrite Hp, Hst; [exact Hd|auto].
  - rewrite Hp, Hst, plain_lookup_setHighlightedIdx in Hpl.
    split; rewrite Hp, Hst.
    + now rewrite deps_of_setHighlightedIdx.
    + now apply highlight_effect_ok.
Qed.

End Effect.

(** ** Handlers *)

Section Handlers.

Import Dropdown.
Open Scope Z_scope.

Lemma arrowDown_mod (n : nat) (i : Z) :
  0 <= i < Z.of_nat n →
  arrowDown n (HNum i) = HNum ((i + 1) mod Z.of_nat n).
Proof.
  intros H. unfold arrowDown. simpl.
  destruct (Nat.eqb_spec n 0) as [->|Hn]; [simpl in H; lia|].
  rewrite Z.rem_mod_nonneg by lia. reflexivity.
Qed.

Lemma arrowUp_mod (n : nat) (i : Z) :
  0 <= i < Z.of_nat n →
  arrowUp n (HNum i) = HNum ((i - 1) mod Z.of_nat n).
Proof.
  intros H. unfold arrowUp. simpl. destruct (Z.leb_spec i 0) as [Hi|Hi].
  - assert (i = 0) by lia. subst i. f_equal.
    change (0 - 1) with (-1).
    rewrite <- (Z.mod_add (-1) 1 (Z.of_nat n)) by lia.
    rewrite Z.mod_small; lia.
  - rewrite Z.mod_small; [reflexivity|lia].
Qed.

Lemma handleSelect_highlightedIdx (p : props) (f : ref) (s : state) (o : opt) :
  highlightedIdx (fst (handleSelect p f s o)) = highlightedIdx s.
Proof.
  unfold handleSelect.
  destruct (disabled p), (multi p), (isControlled p); reflexivity.
Qed.

Lemma handleSelect_open (p : props) (f : ref) (s : state) (o : opt) :
  open (fst (handleSelect p f s o)) =
  if disabled p || multi p then open s else false.
Proof.
  unfold handleSelect.
  destruct (disabled p), (multi p), (isControlled p); reflexivity.
Qed.

Lemma handleSelect_ok (p : props) (f : ref) (s : state) (o : opt) :
  highlight_ok p s →
  open (fst (handleSelect p f s o)) = open s →
  highlight_ok p (fst (handleSelect p f s o)).
Proof.
  intros [Hc Ho] Heq. unfold highlight_ok.
  rewrite handleSelect_highlightedIdx, Heq. auto.
Qed.

Lemma handleKeyDown_ok (p : props) (f : ref) (s : state) (k : key) :
  highlight_ok p s →
  open (fst (handleKeyDown p f s k)) = open s →
  highlight_ok p (fst (handleKeyDown p f s k)).
Proof.
  intros Hok. pose proof Hok as [Hc Ho]. unfold handleKeyDown.
  destruct (disabled p); [auto|].
  destruct (open s) eqn:Eo; simpl.
  - destruct k; simpl; auto; try discriminate.
    + intros _. split; simpl; [congruence|]. intros _ Hne.
      destruct (Ho eq_refl Hne) as (i & -> & Hi).
      rewrite arrowDown_mod by exact Hi. eexists. split; [reflexivity|].
      apply Z.mod_pos_bound. lia.
    + intros _. split; simpl; [congruence|]. intros _ Hne.
      destruct (Ho eq_refl Hne) as (i & -> & Hi).
      rewrite arrowUp_mod by exact Hi. eexists. split; [reflexivity|].
      apply Z.mod_pos_bound. lia.
    + destruct (highlighted_option _ _); [|auto].
      rewrite <- Eo. now apply handleSelect_ok.
    + destruct (highlighted_option _ _); [|auto].
      rewrite <- Eo. now apply handleSelect_ok.
  - destruct k; simpl; auto; discriminate.
Qed.

Lemma highlighted_option_elem (os : list opt) (h : hidx) (o : opt) :
  highlighted_option os h = Some o → o ∈ os.
Proof.
  unfold highlighted_option.
  destruct h as [z| | | |z| | | |]; try discriminate;
    (destruct (0 <=? z); [|discriminate]);
    intros H; eapply list_elem_of_lookup_2; eauto.
Qed.

Lemma highlighted_option_nil (h : hidx) : highlighted_option [] h = None.
Proof.
  destruct (highlighted_option [] h) as [o|] eqn:E; [|reflexivity].
  apply highlighted_option_elem in E. inversion E.
Qed.

Lemma handleClick_ok (p : props) (s : state) :
  highlight_ok p s →
  open (handleClick p s) = open s →
  highlight_ok p (handleClick p s).
Proof.
  unfold handleClick. destruct (disabled p); [auto|].
  simpl. destruct (open s); discriminate.
Qed.

End Handlers.

(** ** The invariant of the render cycle *)

Section Invariant.

Import Dropdown.
Open Scope Z_scope.

Lemma settle_settled (w w' : world) (s' : state) (next : ref) :
  settled w → plain w' = true →
  (open s' = open (w_state w) → highlight_ok (w_props w) s') →
  commit (w_props w) s' (w_deps w) next = Some w' →
  settled w'.
Proof.
  intros [Hd Hok] Hpl Hs Hc. eapply commit_settled; [exact Hc|exact Hpl|].
  intros Hsame. rewrite Hd in Hsame.
  apply same_deps_inv in Hsame as (Ho & _). simpl in Ho. auto.
Qed.

Lemma mount_settled (p : props) (w : world) : mount p = Some w → settled w.
Proof.
  unfold mount. rewrite highlight_effect_closed by reflexivity.
  intros [= <-]. split; simpl; [reflexivity|].
  split; simpl; [reflexivity|discriminate].
Qed.

(** Every event keeps the world settled, when the render it ends in looks
    up no inherited member. *)
Lemma step_settled (w : world) (e : event) (w' : world)
      (out : list notification) :
  settled w → event_ok w e → step w e = Some (w', out) → plain w' = true →
  settled w'.
Proof.
  intros Hw Hev. pose proof Hw as [Hd Hok]. unfold step.
  destruct e as [|k|i|i|t|p']; simpl.
  - destruct (commit _ _ _ _) as [w1|] eqn:Hc; [|discriminate].
    intros [= <- _] Hpl. eapply settle_settled; [exact Hw|exact Hpl| |exact Hc].
    now apply handleClick_ok.
  - destruct (commit _ _ _ _) as [w1|] eqn:Hc; [|discriminate].
    intros [= <- _] Hpl. eapply settle_settled; [exact Hw|exact Hpl| |exact Hc].
    now apply handleKeyDown_ok.
  - destruct (if open (w_state w) then _ else _) as [o|];
      [|intros [= <- _] _; exact Hw].
    destruct (commit _ _ _ _) as [w1|] eqn:Hc; [|discriminate].
    intros [= <- _] Hpl. eapply settle_settled; [exact Hw|exact Hpl| |exact Hc].
    now apply handleSelect_ok.
  - destruct (open (w_state w)) eqn:Eo; [|intros [= <- _] _; exact Hw].
    destruct (elems (options (w_props w)) !! i) as [o|] eqn:Ei;
      [|intros [= <- _] _; exact Hw].
    destruct (commit _ _ _ _) as [w1|] eqn:Hc; [|discriminate].
    intros [= <- _] Hpl. eapply settle_settled; [exact Hw|exact Hpl| |exact Hc].
    intros _. split; simpl; [congruence|]. intros _ _.
    apply lookup_lt_Some in Ei. eexists. split; [reflexivity|lia].
  - destruct (open (w_state w) && outside t) eqn:Eo;
      [|intros [= <- _] _; exact Hw].
    destruct (commit _ _ _ _) as [w1|] eqn:Hc; [|discriminate].
    intros [= <- _] Hpl. eapply settle_settled; [exact Hw|exact Hpl| |exact Hc].
    simpl. apply andb_true_iff in Eo as [Eo _]. rewrite Eo. discriminate.
  - destruct (commit _ _ _ _) as [w1|] eqn:Hc; [|discriminate].
    intros [= <- _] Hpl. eapply commit_settled; [exact Hc|exact Hpl|].
    intros Hsame. rewrite Hd in Hsame.
    apply same_deps_inv in Hsame as (_ & _ & _ & Hr). simpl in Hr.
    simpl in Hev. symmetry in Hr. specialize (Hev Hr).
    destruct Hok as [Hc' Ho']. split; [exact Hc'|]. rewrite Hev. exact Ho'.
Qed.

(** Every event leaves the dependencies of its last render recorded. *)
Lemma step_deps (w : world) (e : event) (w' : world)
      (out : list notification) :
  w_deps w = deps_of (w_props w) (w_state w) →
  step w e = Some (w', out) →
  w_deps w' = deps_of (w_props w') (w_state w').
Proof.
  intros Hd. unfold step. destruct e as [|k|i|i|t|p']; simpl.
  - destruct (commit _ _ _ _) as [w1|] eqn:Hc; [|discriminate].
    intros [= <- _]. exact (commit_deps _ _ _ _ _ Hc).
  - destruct (commit _ _ _ _) as [w1|] eqn:Hc; [|discriminate].
    intros [= <- _]. exact (commit_deps _ _ _ _ _ Hc).
  - destruct (if open (w_state w) then _ else _) as [o|];
      [|intros [= <- _]; exact Hd].
    destruct (commit _ _ _ _) as [w1|] eqn:Hc; [|discriminate].
    intros [= <- _]. exact (commit_deps _ _ _ _ _ Hc).
  - destruct (if open (w_state w) then _ else _) as [o|];
      [|intros [= <- _]; exact Hd].
    destruct (commit _ _ _ _) as [w1|] eqn:Hc; [|discriminate].
    intros [= <- _]. exact (commit_deps _ _ _ _ _ Hc).
  - destruct (open (w_state w) && outside t);
      [|intros [= <- _]; exact Hd].
    destruct (commit _ _ _ _) as [w1|] eqn:Hc; [|discriminate].
    intros [= <- _]. exact (commit_deps _ _ _ _ _ Hc).
  - destruct (commit _ _ _ _) as [w1|] eqn:Hc; [|discriminate].
    intros [= <- _]. exact (commit_deps _ _ _ _ _ Hc).
Qed.

(** An event has no next world only when its render re-runs the effect in
    single-select mode, the lookup finds an inherited member, and that
    member is a function that throws when React calls it. *)
Lemma step_None (w : world) (e : event) :
  step w e = None →
  ∃ p s k,
    open s = true ∧ multi p = false
    ∧ selection_key (selectedValue p s) = Some k
    ∧ get_prop (value2idx (elems (options p))) k = Inherited
    ∧ set_inherited k (highlightedIdx s) = None.
Proof.
  assert (Hc : ∀ p s prev next, commit p s prev next = None →
            ∃ p s k, open s = true ∧ multi p = false
                     ∧ selection_key (selectedValue p s) = Some k
                     ∧ get_prop (value2idx (elems (options p))) k = Inherited
                     ∧ set_inherited k (highlightedIdx s) = None).
  { intros p s prev next. unfold commit.
    destruct (same_deps _ _); [discriminate|].
    destruct (highlight_effect p s) eqn:E; [discriminate|]. intros _.
    apply highlight_effect_None in E as (Ho & Hm & k & Hk & Hg & Hi).
    exists p, s, k. auto. }
  unfold step. destruct e as [|k|i|i|t|p']; simpl.
  - destruct (commit _ _ _ _) eqn:E; [discriminate|]. intros _. eauto.
  - destruct (commit _ _ _ _) eqn:E; [discriminate|]. intros _. eauto.
  - destruct (if open (w_state w) then _ else _); [|discriminate].
    destruct (commit _ _ _ _) eqn:E; [discriminate|]. intros _. eauto.
  - destruct (if open (w_state w) then _ else _); [|discriminate].
    destruct (commit _ _ _ _) eqn:E; [discriminate|]. intros _. eauto.
  - destruct (open (w_state w) && outside t); [|discriminate].
    destruct (commit _ _ _ _) eqn:E; [discriminate|]. intros _. eauto.
  - destruct (commit _ _ _ _) eqn:E; [discriminate|]. intros _. eauto.
Qed.

Lemma reachable_plain_settled (w : world) : reachable_plain w → settled w.
Proof.
  induction 1 as [p w Hm Hp|w e w' out _ IH Hev Hs Hp].
  - eapply mount_settled; eauto.
  - eapply step_settled; eauto.
Qed.

Lemma reachable_plain_reachable (w : world) : reachable_plain w → reachable w.
Proof.
  induction 1 as [p w Hm Hp|w e w' out _ IH Hev Hs Hp].
  - eapply reachable_mount; eauto.
  - eapply reachable_step; eauto.
Qed.

Lemma reachable_deps (w : world) :
  reachable w → w_deps w = deps_of (w_props w) (w_state w).
Proof.
  induction 1 as [p w Hm|w e w' out _ IH Hev Hs].
  - now destruct (mount_settled _ _ Hm).
  - eapply step_deps; eauto.
Qed.

(** A closed menu has no highlight, whatever was looked up before. *)
Lemma reachable_closed (w : world) :
  reachable w → open (w_state w) = false →
  highlightedIdx (w_state w) = HNum (-1).
Proof.
  induction 1 as [p w Hm|w e w' out Hr IH Hev Hs].
  - intros _. unfold mount in Hm.
    rewrite highlight_effect_closed in Hm by reflexivity.
    now injection Hm as <-.
  - intros Hcl. pose proof (reachable_deps _ Hr) as Hd.
    assert (Hcommit : ∀ p' s' next w1,
              commit p' s' (w_deps w) next = Some w1 →
              open (w_state w1) = false →
              (open (w_state w) = false →
               highlightedIdx s' = highlightedIdx (w_state w)) →
              highlightedIdx (w_state w1) = HNum (-1)).
    { intros p' s' next w1 Hc Ho1 Hsame.
      destruct (commit_Some _ _ _ _ _ Hc) as (_ & _ & _ & Ho & _ & Hcase).
      rewrite Ho in Ho1.
      destruct Hcase as [[Hs' ->]|[_ (h & Hh & ->)]].
      - rewrite Hd in Hs'. apply same_deps_inv in Hs' as (Hopen & _).
        simpl in Hopen. rewrite Ho1 in Hopen. rewrite Hsame by exact Hopen.
        now apply IH.
      - rewrite (highlight_effect_closed _ _ Ho1) in Hh.
        injection Hh as <-. reflexivity. }
    revert Hs. unfold step. destruct e as [|k|i|i|t|p']; simpl.
    + destruct (commit _ _ _ _) as [w1|] eqn:Hc; [|discriminate].
      intros [= <- _]. eapply Hcommit; [exact Hc|exact Hcl|].
      intros _. unfold handleClick. now destruct (disabled _).
    + destruct (commit _ _ _ _) as [w1|] eqn:Hc; [|discriminate].
      intros [= <- _]. eapply Hcommit; [exact Hc|exact Hcl|].
      intros Ho. unfold handleKeyDown. destruct (disabled _); [reflexivity|].
      rewrite Ho. now destruct k.
    + destruct (if open (w_state w) then _ else _) as [o|] eqn:Eo;
        [|intros [= <- _]; auto].
      destruct (commit _ _ _ _) as [w1|] eqn:Hc; [|discriminate].
      intros [= <- _]. eapply Hcommit; [exact Hc|exact Hcl|].
      intros _. apply handleSelect_highlightedIdx.
    + destruct (open (w_state w)) eqn:Eo; [|intros [= <- _]; auto].
      destruct (elems (options (w_props w)) !! i) as [o|];
        [|intros [= <- _]; congruence].
      destruct (commit _ _ _ _) as [w1|] eqn:Hc; [|discriminate].
      intros [= <- _]. eapply Hcommit; [exact Hc|exact Hcl|]. discriminate.
    + destruct (open (w_state w) && outside t) eqn:Eo;
        [|intros [= <- _]; auto].
      destruct (commit _ _ _ _) as [w1|] eqn:Hc; [|discriminate].
      intros [= <- _]. eapply Hcommit; [exact Hc|exact Hcl|].
      apply andb_true_iff in Eo as [Eo _]. rewrite Eo. discriminate.
    + destruct (commit _ _ _ _) as [w1|] eqn:Hc; [|discriminate].
      intros [= <- _]. eapply Hcommit; [exact Hc|exact Hcl|]. reflexivity.
Qed.

Lemma run_reachable (es : list event) (w w' : world) :
  reachable w → Forall (λ e, ∀ w1, event_ok w1 e) es →
  run w es = Some w' → reachable w'.
Proof.
  revert w. induction es as [|e es IH]; intros w Hr Hok; simpl.
  - now intros [= <-].
  - destruct (step w e) as [[w1 out]|] eqn:Es; [|discriminate].
    inversion Hok as [|? ? He Hes]; subst.
    apply IH; [|exact Hes]. eapply reachable_step; eauto.
Qed.

Lemma mount_run_reachable (p : props) (es : list event) (w0 w : world) :
  mount p = Some w0 → Forall (λ e, ∀ w1, event_ok w1 e) es →
  run w0 es = Some w → reachable w.
Proof.
  intros Hm. apply run_reachable. now apply reachable_mount with p.
Qed.

Lemma run_plain_reachable (es : list event) (w w' : world) :
  reachable_plain w → Forall (λ e, ∀ w1, event_ok w1 e) es →
  run_plain w es = Some w' → reachable_plain w'.
Proof.
  revert w. induction es as [|e es IH]; intros w Hr Hok; simpl.
  - now intros [= <-].
  - destruct (step w e) as [[w1 out]|] eqn:Es; [|discriminate].
    destruct (plain w1) eqn:Ep; [|discriminate].
    inversion Hok as [|? ? He Hes]; subst.
    apply IH; [|exact Hes]. eapply plain_step; eauto.
Qed.

Lemma mount_run_plain (p : props) (es : list event) (w0 w : world) :
  mount p = Some w0 → plain w0 = true →
  Forall (λ e, ∀ w1, event_ok w1 e) es →
  run_plain w0 es = Some w → reachable_plain w.
Proof.
  intros Hm Hp. apply run_plain_reachable. now apply plain_mount with p.
Qed.

End Invariant.

(** Events of the user are always possible. *)
Ltac user_events :=
  repeat (constructor; [intros ?; exact I|]); constructor.

(** ** Claims about the highlight *)

Section HighlightClaims.

Import Dropdown.
Open Scope Z_scope.

Lemma abc_second_reachable : reachable abc_second.
Proof.
  apply (mount_run_reachable abc_props [TriggerClick; KeyDown ArrowDown]
           (World abc_props (State false (HNum (-1)) Null)
                  (Deps false Null false 0%nat) 2%nat)).
  - vm_compute. reflexivity.
  - user_events.
  - vm_compute. reflexivity.
Defined.

Lemma abc_multi_third_reachable : reachable abc_multi_third.
Proof.
  apply (mount_run_reachable abc_multi
           [TriggerClick; KeyDown ArrowDown; KeyDown ArrowDown]
           (World abc_multi (State false (HNum (-1)) (Multiple (Array 1%nat [])))
                  (Deps false (Multiple (Array 1%nat [])) true 0%nat) 2%nat)).
  - vm_compute. reflexivity.
  - user_events.
  - vm_compute. reflexivity.
Defined.

(** The end-to-end scenario: activate, ArrowDown, Enter, activate again. *)
Example end_to_end_scenario :
  ∃ w0 w1 w2 w3 w4,
    mount abc_props = Some w0
    ∧ step w0 TriggerClick = Some (w1, [])
    ∧ w_state w1 = State true (HNum 0) Null
    ∧ step w1 (KeyDown ArrowDown) = Some (w2, [])
    ∧ w_state w2 = State true (HNum 1) Null
    ∧ step w2 (KeyDown Enter) = Some (w3, [Changed (Single (VNum 2))])
    ∧ w_state w3 = State false (HNum (-1)) (Single (VNum 2))
    ∧ step w3 TriggerClick = Some (w4, [])
    ∧ w_state w4 = State true (HNum 1) (Single (VNum 2)).
Proof.
  eexists _, _, _, _, _.
  repeat (split; [vm_compute; reflexivity|]). vm_compute. reflexivity.
Qed.

Lemma abc_second_plain : reachable_plain abc_second.
Proof.
  apply (mount_run_plain abc_props [TriggerClick; KeyDown ArrowDown]
           (World abc_props (State false (HNum (-1)) Null)
                  (Deps false Null false 0%nat) 2%nat)).
  - vm_compute. reflexivity.
  - vm_compute. reflexivity.
  - user_events.
  - vm_compute. reflexivity.
Defined.

(** C1, as amended: take the worlds reached from the mount by the events of
    the widget (click, key, option click, hover, outside pointer, re-render
    by the parent, who passes a new options array whenever the options
    change) without ever rendering an open single-select menu whose
    selected value has the key of an inherited member of the
    value-to-index object.  In every
    such world a closed menu has [highlightedIdx = -1], and when the option
    list is not empty [highlightedIdx] is -1 or an index into the list (an
    index exactly when the menu is open).  Mounting establishes this and
    every event keeps it. *)
Theorem highlight_valid (w : world) :
  reachable_plain w →
  (open (w_state w) = false → highlightedIdx (w_state w) = HNum (-1))
  ∧ (elems (options (w_props w)) ≠ [] →
     valid_idx (length (elems (options (w_props w))))
               (highlightedIdx (w_state w))
     ∧ (open (w_state w) = true →
        ∃ i, highlightedIdx (w_state w) = HNum i
             ∧ 0 <= i < Z.of_nat (length (elems (options (w_props w)))))).
Proof.
  intros Hr. apply reachable_plain_settled in Hr as [_ [Hc Ho]].
  split; [exact Hc|]. intros Hne. split; [|auto].
  destruct (open (w_state w)) eqn:Eo.
  - destruct (Ho eq_refl Hne) as (i & Hi & Hrange). exists i. auto.
  - exists (-1). auto.
Qed.

Lemma highlight_valid_witness :
  reachable_plain abc_second
  ∧ (open (w_state abc_second) = false →
     highlightedIdx (w_state abc_second) = HNum (-1))
  ∧ (elems (options (w_props abc_second)) ≠ [] →
     valid_idx (length (elems (options (w_props abc_second))))
               (highlightedIdx (w_state abc_second))
     ∧ (open (w_state abc_second) = true →
        ∃ i, highlightedIdx (w_state abc_second) = HNum i
             ∧ 0 <= i < Z.of_nat (length (elems (options (w_props abc_second)))))).
Proof.
  split.
  - exact abc_second_plain.
  - apply (highlight_valid abc_second). exact abc_second_plain.
Defined.

(** C1 as stated fails in two ways.  On an empty option list, opening the
    menu sets [highlightedIdx] to 0, which indexes nothing, and ArrowDown
    then makes it NaN.  And over the options A, B, C with the default value
    ['toString'], opening the menu passes the inherited function
    [toString] to the setter: [highlightedIdx] becomes the string
    ["[object Undefined]"], and ArrowDown then makes it NaN. *)
Lemma highlight_invalid_states :
  (∃ w0 w1 w2,
     mount no_options = Some w0
     ∧ step w0 (KeyDown ArrowDown) = Some (w1, [])
     ∧ step w1 (KeyDown ArrowDown) = Some (w2, [])
     ∧ reachable_plain w1 ∧ reachable_plain w2
     ∧ highlightedIdx (w_state w1) = HNum 0
     ∧ ¬ valid_idx (length (elems (options (w_props w1))))
                   (highlightedIdx (w_state w1))
     ∧ highlightedIdx (w_state w2) = HNaN
     ∧ ¬ valid_idx (length (elems (options (w_props w2))))
                   (highlightedIdx (w_state w2)))
  ∧ (∃ w0 w1 w2,
       mount abc_toString = Some w0
       ∧ step w0 TriggerClick = Some (w1, [])
       ∧ step w1 (KeyDown ArrowDown) = Some (w2, [])
       ∧ reachable w1 ∧ reachable w2
       ∧ elems (options (w_props w1)) = abc
       ∧ open (w_state w1) = true
       ∧ highlightedIdx (w_state w1) = HTag
       ∧ ¬ valid_idx (length (elems (options (w_props w1))))
                     (highlightedIdx (w_state w1))
       ∧ open (w_state w2) = true
       ∧ highlightedIdx (w_state w2) = HNaN
       ∧ ¬ valid_idx (length (elems (options (w_props w2))))
                     (highlightedIdx (w_state w2))).
Proof.
  split.
  - eexists _, _, _.
    split; [vm_compute; reflexivity|].
    split; [vm_compute; reflexivity|].
    split; [vm_compute; reflexivity|].
    assert (Hm : mount no_options
                 = Some (World no_options (State false (HNum (-1)) Null)
                               (Deps false Null false 0%nat) 2%nat))
      by (vm_compute; reflexivity).
    split.
    { apply (mount_run_plain _ [KeyDown ArrowDown] _ _ Hm);
        [vm_compute; reflexivity|user_events|].
      vm_compute. reflexivity. }
    split.
    { apply (mount_run_plain _ [KeyDown ArrowDown; KeyDown ArrowDown] _ _ Hm);
        [vm_compute; reflexivity|user_events|].
      vm_compute. reflexivity. }
    split; [reflexivity|]. split.
    { intros (i & [= <-] & [Hi|Hi]); simpl in Hi; lia. }
    split; [reflexivity|].
    intros (i & Hi & _). discriminate.
  - eexists _, _, _.
    split; [vm_compute; reflexivity|].
    split; [vm_compute; reflexivity|].
    split; [vm_compute; reflexivity|].
    assert (Hm : mount abc_toString
                 = Some (World abc_toString
                               (State false (HNum (-1)) (Single (VStr "toString")))
                               (Deps false (Single (VStr "toString")) false 0%nat)
                               2%nat))
      by (vm_compute; reflexivity).
    split.
    { apply (mount_run_reachable _ [TriggerClick] _ _ Hm); [user_events|].
      vm_compute. reflexivity. }
    split.
    { apply (mount_run_reachable _ [TriggerClick; KeyDown ArrowDown] _ _ Hm);
        [user_events|].
      vm_compute. reflexivity. }
    split; [reflexivity|]. split; [reflexivity|]. split; [reflexivity|].
    split; [intros (i & Hi & _); discriminate|].
    split; [reflexivity|]. split; [reflexivity|].
    intros (i & Hi & _). discriminate.
Qed.

End HighlightClaims.

(** ** Opening and closing *)

Section Opening.

Import Dropdown.
Open Scope Z_scope.

Lemma pretty_N_go_numeric_head (x : N) (s : string) :
  numeric_head s = true → numeric_head (pretty_N_go x s) = true.
Proof.
  revert s. induction (N.lt_wf_0 x) as [x _ IH]; intros s Hs.
  destruct (decide (x = 0)%N) as [->|Hx].
  - now rewrite pretty_N_go_0.
  - rewrite pretty_N_go_step by lia. apply IH.
    + apply N.div_lt; lia.
    + simpl. unfold pretty_N_char.
      repeat case_match; vm_compute; reflexivity.
Qed.

Lemma pretty_Z_numeric_head (n : Z) : numeric_head (pretty n) = true.
Proof.
  destruct n as [|x|x]; [reflexivity| |reflexivity].
  unfold pretty, pretty_Z, pretty, pretty_positive, pretty, pretty_N.
  case_decide; [reflexivity|]. now apply pretty_N_go_numeric_head.
Qed.

(** The key of a number is never a name inherited from
    [Object.prototype]. *)
Lemma number_key_not_inherited (n : Z) : pretty n ∉ Object_prototype_keys.
Proof.
  pose proof (pretty_Z_numeric_head n) as H. intros Hin.
  unfold Object_prototype_keys in Hin.
  repeat (apply elem_of_cons in Hin as [Hin|Hin];
          [rewrite Hin in H; vm_compute in H; discriminate|]).
  inversion Hin.
Qed.

(** Opening in single-select mode with a selected value whose key is not
    an inherited name: the highlight is the last index carrying that key,
    or 0 when no option carries it. *)
Lemma open_highlight_by_key (p : props) (s : state) (v : jsval) :
  open s = true → multi p = false → selectedValue p s = Single v →
  to_key v ∉ Object_prototype_keys →
  highlight_effect p s =
  Some (HNum (match last_index (to_key v) (elems (options p)) with
              | Some j => Z.of_nat j
              | None => 0
              end)).
Proof.
  intros Ho Hm Hv Hk. unfold highlight_effect. rewrite Ho, Hm, Hv. simpl.
  unfold get_prop. rewrite value2idx_lookup.
  case_bool_decide as Hp.
  { exfalso. apply Hk. rewrite Hp. unfold Object_prototype_keys.
    set_solver. }
  destruct (last_index (to_key v) (elems (options p))); [reflexivity|].
  case_bool_decide; [contradiction|reflexivity].
Qed.

(** When the option values and the selected value are all numbers, keys
    are values: opening highlights the (last) option whose value is the
    selected one, and option 0 when there is none. *)
Lemma open_highlight_numbers (p : props) (s : state) (n : Z) :
  open s = true → multi p = false → selectedValue p s = Single (VNum n) →
  (∀ o, o ∈ elems (options p) → ∃ m, opt_value o = VNum m) →
  ∃ i, highlight_effect p s = Some (HNum i)
       ∧ ((∃ o, o ∈ elems (options p) ∧ opt_value o = VNum n) →
          ∃ o, elems (options p) !! Z.to_nat i = Some o
               ∧ 0 <= i ∧ opt_value o = VNum n
               ∧ ∀ j o', (Z.to_nat i < j)%nat →
                         elems (options p) !! j = Some o' →
                         opt_value o' ≠ VNum n)
       ∧ ((∀ o, o ∈ elems (options p) → opt_value o ≠ VNum n) → i = 0).
Proof.
  intros Ho Hm Hv Hnum.
  rewrite (open_highlight_by_key p s (VNum n) Ho Hm Hv)
    by apply number_key_not_inherited.
  assert (Hkey : ∀ o, o ∈ elems (options p) →
                      to_key (opt_value o) = to_key (VNum n) →
                      opt_value o = VNum n).
  { intros o Hin Hk. destruct (Hnum o Hin) as [m Hm']. rewrite Hm' in Hk |- *.
    simpl in Hk. apply pretty_Z_inj in Hk. now subst. }
  destruct (last_index (to_key (VNum n)) (elems (options p))) as [j|] eqn:E.
  - exists (Z.of_nat j). split; [reflexivity|]. split.
    + intros _. apply last_index_Some in E as (Hlt & (o & Hat & Hk) & Hlast).
      exists o. rewrite Nat2Z.id. split; [exact Hat|]. split; [lia|]. split.
      * apply Hkey; [|exact Hk]. eapply list_elem_of_lookup_2; eauto.
      * intros j' o' Hj Hat' Hv'. eapply Hlast; eauto. now rewrite Hv'.
    + intros Hnone. exfalso.
      apply last_index_Some in E as (_ & (o & Hat & Hk) & _).
      apply (Hnone o); [eapply list_elem_of_lookup_2; eauto|].
      apply Hkey; [eapply list_elem_of_lookup_2; eauto|exact Hk].
  - exists 0. split; [reflexivity|]. split; [|reflexivity].
    intros (o & Hin & Hv'). exfalso.
    rewrite last_index_None in E. apply (E o Hin). now rewrite Hv'.
Qed.

(** C2, the code at the failing input: options with the numbers 7 and 1,
    and the string ["1"] selected.  No option has that value and none is
    rendered as selected, yet opening highlights index 1: the lookup object
    turns both the number 1 and the string ["1"] into the key ["1"]. *)
Theorem open_highlight_key_collision :
  ∃ w0 w1,
    mount mixed_props = Some w0
    ∧ step w0 TriggerClick = Some (w1, [])
    ∧ open (w_state w1) = true
    ∧ selectedValue (w_props w1) (w_state w1) = Single (VStr "1")
    ∧ (∀ o, o ∈ elems (options (w_props w1)) → opt_value o ≠ VStr "1")
    ∧ (∀ o, o ∈ elems (options (w_props w1)) →
            isSelected (w_props w1) (w_state w1) (opt_value o) = false)
    ∧ highlightedIdx (w_state w1) = HNum 1.
Proof.
  eexists _, _.
  split; [vm_compute; reflexivity|].
  split; [vm_compute; reflexivity|].
  split; [reflexivity|]. split; [reflexivity|]. split; [|split].
  - intros o Ho. simpl in Ho.
    repeat (apply elem_of_cons in Ho as [->|Ho]; [discriminate|]).
    inversion Ho.
  - intros o Ho. simpl in Ho.
    repeat (apply elem_of_cons in Ho as [->|Ho]; [vm_compute; reflexivity|]).
    inversion Ho.
  - reflexivity.
Qed.

(** A selected value named like a member of [Object.prototype] is found by
    the lookup although no option carries it, and the effect has no index
    to set: the setter receives the inherited function, React calls it, and
    the highlight becomes the string ["[object Undefined]"].  With
    ['valueOf'] the call throws. *)
Example open_highlight_inherited_name :
  (∀ o, o ∈ abc → opt_value o ≠ VStr "toString")
  ∧ get_prop (value2idx abc) "toString" = Inherited
  ∧ highlight_effect abc_toString
      (State true (HNum (-1)) (Single (VStr "toString")))
    = Some HTag
  ∧ highlight_effect abc_props
      (State true (HNum (-1)) (Single (VStr "valueOf")))
    = None.
Proof.
  split; [|split; [|split]; vm_compute; reflexivity].
  intros o Ho. unfold abc in Ho.
  repeat (apply elem_of_cons in Ho as [->|Ho]; [discriminate|]).
  inversion Ho.
Qed.

(** What the inherited members leave in the state of a menu that opens
    from [highlightedIdx = -1], and what the arrow keys and Enter make of
    it over three options: a string that the arrows turn into NaN, the
    wrapper of -1, from which ArrowDown reaches option 0 and ArrowUp the
    last option, [false], from which ArrowDown reaches option 1, and the
    prototype object.  None of them highlights or selects an option. *)
Example inherited_members :
  set_inherited "toString" (HNum (-1)) = Some HTag
  ∧ set_inherited "constructor" (HNum (-1)) = Some (HNumberObject (-1))
  ∧ set_inherited "isPrototypeOf" (HNum (-1)) = Some HFalse
  ∧ set_inherited "__proto__" (HNum (-1)) = Some HObjectPrototype
  ∧ set_inherited "hasOwnProperty" (HNum (-1)) = None
  ∧ map (arrowDown 3) [HTag; HNumberObject (-1); HFalse; HObjectPrototype]
    = [HNaN; HNum 0; HNum 1; HNaN]
  ∧ map (arrowUp 3) [HTag; HNumberObject (-1); HFalse; HObjectPrototype]
    = [HNaN; HNum 2; HNum 2; HNaN]
  ∧ map (highlighted_option abc)
        [HTag; HNumberObject (-1); HFalse; HObjectPrototype]
    = [None; None; None; None]
  ∧ ∀ j h, h ∈ [HTag; HNumberObject (-1); HFalse; HObjectPrototype] →
           option_highlighted j h = false.
Proof.
  repeat (split; [reflexivity|]). intros j h Hh.
  repeat (apply elem_of_cons in Hh as [->|Hh]; [reflexivity|]).
  inversion Hh.
Qed.

(** The parts of C2 that hold for every props and state: in multi-select
    mode the open menu highlights 0, and a closed menu highlights nothing. *)
Lemma open_highlight_multi_and_close (p : props) (s : state) :
  (open s = true → multi p = true → highlight_effect p s = Some (HNum 0))
  ∧ (open s = false → highlight_effect p s = Some (HNum (-1))).
Proof.
  split; [apply highlight_effect_multi|apply highlight_effect_closed].
Qed.

End Opening.

(** ** Selection *)

Section Selection.

Import Dropdown.
Open Scope Z_scope.

(** *** The toggle of multi-select *)

Lemma includes_true (l : list jsval) (v : jsval) : includes l v = true ↔ v ∈ l.
Proof. unfold includes. apply bool_decide_eq_true. Qed.

Lemma includes_false (l : list jsval) (v : jsval) : includes l v = false ↔ v ∉ l.
Proof. unfold includes. apply bool_decide_eq_false. Qed.

Lemma toggle_absent (l : list jsval) (v : jsval) :
  v ∉ l → toggle l v = l ++ [v].
Proof. intros H. unfold toggle. apply includes_false in H. now rewrite H. Qed.

Lemma toggle_present (l : list jsval) (v : jsval) :
  v ∈ l → toggle l v = filter (λ x, x ≠ v) l.
Proof. intros H. unfold toggle. apply includes_true in H. now rewrite H. Qed.

Lemma filter_absent (l : list jsval) (v : jsval) :
  v ∉ l → filter (λ x, x ≠ v) l = l.
Proof.
  induction l as [|x l IH]; intros H; [reflexivity|].
  apply not_elem_of_cons in H as [Hx Hl].
  rewrite filter_cons_True by congruence. now rewrite IH.
Qed.

Lemma filter_removes (l : list jsval) (v : jsval) : v ∉ filter (λ x, x ≠ v) l.
Proof. intros H. apply list_elem_of_filter in H as [H _]. now apply H. Qed.

(** Membership after one toggle: [v] changes sides, nothing else moves. *)
Lemma elem_of_toggle (l : list jsval) (v x : jsval) :
  x ∈ toggle l v ↔ (x = v ∧ v ∉ l) ∨ (x ≠ v ∧ x ∈ l).
Proof.
  destruct (decide (v ∈ l)) as [Hin|Hout].
  - rewrite (toggle_present _ _ Hin), list_elem_of_filter. split.
    + intros [Hx Hl]. right. split; [exact Hx|exact Hl].
    + intros [[_ Hn]|[Hx Hl]]; [contradiction|split; assumption].
  - rewrite (toggle_absent _ _ Hout), elem_of_app, list_elem_of_singleton. split.
    + intros [Hl| ->]; [right|left; split; auto].
      split; [|exact Hl]. intros ->. contradiction.
    + intros [[-> _]|[_ Hl]]; [right|left]; auto.
Qed.

Lemma toggle_twice_absent (l : list jsval) (v : jsval) :
  v ∉ l → toggle (toggle l v) v = l.
Proof.
  intros H. rewrite (toggle_absent _ _ H).
  rewrite toggle_present by (apply elem_of_app; right; now left).
  rewrite filter_app, (filter_absent _ _ H).
  rewrite filter_cons_False by (intros Hn; now apply Hn).
  rewrite filter_nil. apply app_nil_r.
Qed.

Lemma toggle_twice_present (l : list jsval) (v : jsval) :
  v ∈ l → toggle (toggle l v) v = filter (λ x, x ≠ v) l ++ [v].
Proof.
  intros H. rewrite (toggle_present _ _ H).
  apply toggle_absent, filter_removes.
Qed.

(** Two toggles of the same value leave the same members. *)
Lemma toggle_twice_members (l : list jsval) (v x : jsval) :
  x ∈ toggle (toggle l v) v ↔ x ∈ l.
Proof.
  destruct (decide (v ∈ l)) as [Hin|Hout].
  - rewrite (toggle_twice_present _ _ Hin), elem_of_app, list_elem_of_filter,
      list_elem_of_singleton.
    split.
    + intros [[_ Hl]| ->]; assumption.
    + intros Hl. destruct (decide (x = v)); [right|left]; auto.
  - now rewrite (toggle_twice_absent _ _ Hout).
Qed.

Lemma filter_ne_Permutation (l : list jsval) (v : jsval) :
  NoDup l → v ∈ l → filter (λ x, x ≠ v) l ++ [v] ≡ₚ l.
Proof.
  induction 1 as [|x l Hx Hnd IH]; intros Hin; [inversion Hin|].
  destruct (decide (x = v)) as [->|Hne].
  - rewrite filter_cons_False by (intros Hn; now apply Hn).
    rewrite (filter_absent _ _ Hx). symmetry. apply Permutation_cons_append.
  - rewrite filter_cons_True by exact Hne.
    apply elem_of_cons in Hin as [->|Hin]; [congruence|].
    simpl. now rewrite IH.
Qed.

(** On a collection without duplicates, two toggles give back the same
    values up to order. *)
Lemma toggle_twice_Permutation (l : list jsval) (v : jsval) :
  NoDup l → toggle (toggle l v) v ≡ₚ l.
Proof.
  intros Hnd. destruct (decide (v ∈ l)) as [Hin|Hout].
  - rewrite (toggle_twice_present _ _ Hin). now apply filter_ne_Permutation.
  - now rewrite (toggle_twice_absent _ _ Hout).
Qed.

Lemma toggle_NoDup (l : list jsval) (v : jsval) : NoDup l → NoDup (toggle l v).
Proof.
  intros Hnd. destruct (decide (v ∈ l)) as [Hin|Hout].
  - rewrite (toggle_present _ _ Hin). now apply NoDup_filter.
  - rewrite (toggle_absent _ _ Hout). apply NoDup_app. split; [exact Hnd|].
    split; [|apply NoDup_singleton].
    intros x Hx Hv. apply list_elem_of_singleton in Hv. now subst.
Qed.

End Selection.

(** ** Array references *)

Section References.

Import Dropdown.

Lemma handleSelect_ref (p : props) (f : ref) (s : state) (o : opt) :
  (selection_ref (internalValue s) < f)%nat →
  (selection_ref (internalValue (fst (handleSelect p f s o))) < S f)%nat.
Proof.
  intros H. unfold handleSelect.
  destruct (disabled p), (multi p), (isControlled p); simpl; lia.
Qed.

Lemma handleKeyDown_ref (p : props) (f : ref) (s : state) (k : key) :
  (selection_ref (internalValue s) < f)%nat →
  (selection_ref (internalValue (fst (handleKeyDown p f s k))) < S f)%nat.
Proof.
  intros H. unfold handleKeyDown.
  destruct (disabled p); [simpl; lia|].
  destruct (negb (open s)); [destruct k; simpl; lia|].
  destruct k; simpl; try lia;
    (destruct (highlighted_option _ _); [now apply handleSelect_ref|simpl; lia]).
Qed.

Lemma mount_refs_below (p : props) (w : world) :
  mount p = Some w → refs_below w.
Proof.
  unfold mount. destruct (highlight_effect _ _); [|discriminate].
  intros [= <-]. unfold refs_below, first_free, initialValue. simpl.
  split; [lia|].
  destruct (defaultValue p); simpl; try lia. destruct (multi p); simpl; lia.
Qed.

Lemma step_refs_below (w : world) (e : event) (w' : world)
      (out : list notification) :
  refs_below w → step w e = Some (w', out) → refs_below w'.
Proof.
  intros [Hv Hi]. unfold step.
  assert (Hsettle : ∀ r : state * list notification,
             (selection_ref (internalValue (fst r)) < S (w_next w))%nat →
             match commit (w_props w) (fst r) (w_deps w) (S (w_next w)) with
             | Some w1 => Some (w1, snd r)
             | None => None
             end = Some (w', out) → refs_below w').
  { intros r Hr. destruct (commit _ _ _ _) as [w1|] eqn:Hc; [|discriminate].
    intros [= <- _].
    destruct (commit_Some _ _ _ _ _ Hc) as (Hp & Hn & _ & _ & Hint & _).
    unfold refs_below. rewrite Hp, Hn, Hint. split; [lia|exact Hr]. }
  destruct e as [|k|i|i|t|p']; simpl.
  - apply (Hsettle (_, _)). unfold handleClick. destruct (disabled _); simpl; lia.
  - apply (Hsettle (_, _)). now apply handleKeyDown_ref.
  - destruct (if open (w_state w) then _ else _) as [o|].
    + apply (Hsettle (_, _)). now apply handleSelect_ref.
    + intros [= <- _]. split; assumption.
  - destruct (if open (w_state w) then _ else _) as [o|].
    + apply (Hsettle (_, _)). simpl. lia.
    + intros [= <- _]. split; assumption.
  - destruct (open (w_state w) && outside t).
    + apply (Hsettle (_, _)). simpl. lia.
    + intros [= <- _]. split; assumption.
  - destruct (commit _ _ _ _) as [w1|] eqn:Hc; [|discriminate].
    intros [= <- _].
    destruct (commit_Some _ _ _ _ _ Hc) as (Hp & Hn & _ & _ & Hint & _).
    unfold refs_below. rewrite Hp, Hn, Hint. unfold first_free. split; lia.
Qed.

Lemma reachable_refs_below (w : world) : reachable w → refs_below w.
Proof.
  induction 1 as [p w Hm|w e w' out _ IH _ Hs].
  - eapply mount_refs_below; eauto.
  - eapply step_refs_below; eauto.
Qed.

End References.

(** ** Claims about keyboard navigation *)

Section Navigation.

Import Dropdown.
Open Scope Z_scope.

Lemma commit_same (p : props) (s : state) (prev : deps) (next : ref) :
  same_deps prev (deps_of p s) = true →
  commit p s prev next = Some (World p s (deps_of p s) next).
Proof. intros H. unfold commit. now rewrite H. Qed.

Lemma commit_rerun (p : props) (s : state) (prev : deps) (next : ref)
      (h : hidx) :
  same_deps prev (deps_of p s) = false → highlight_effect p s = Some h →
  commit p s prev next
  = Some (World p (setHighlightedIdx h s) (deps_of p s) next).
Proof. intros H1 H2. unfold commit. now rewrite H1, H2. Qed.



(** From the last option ArrowDown goes to the first one. *)
Example arrow_down_from_last :
  ∃ w', step abc_multi_third (KeyDown ArrowDown) = Some (w', [])
        ∧ highlightedIdx (w_state w') = HNum 0.
Proof. eexists. split; vm_compute; reflexivity. Qed.

End Navigation.

(** ** Claims about selection *)

Section SelectionClaims.

Import Dropdown.
Open Scope Z_scope.

Lemma handleSelect_single_eq (p : props) (f : ref) (s : state) (o : opt) :
  multi p = false → disabled p = false →
  handleSelect p f s o
  = (setOpen false (if isControlled p then s
                    else setInternalValue (Single (opt_value o)) s),
     notify p (Single (opt_value o))).
Proof. intros Hm Hd. unfold handleSelect. now rewrite Hd, Hm. Qed.

Lemma handleSelect_multi_eq (p : props) (f : ref) (s : state) (o : opt) :
  multi p = true → disabled p = false →
  let newVals :=
    Multiple (Array f (toggle (oldVals (selectedValue p s)) (opt_value o))) in
  handleSelect p f s o
  = (if isControlled p then s else setInternalValue newVals s,
     notify p newVals).
Proof. intros Hm Hd. unfold handleSelect. now rewrite Hd, Hm. Qed.

(** An option click on an open menu runs [handleSelect] and renders. *)
Lemma step_OptionClick (w : world) (i : nat) (o : opt) :
  open (w_state w) = true → elems (options (w_props w)) !! i = Some o →
  step w (OptionClick i)
  = match commit (w_props w)
                 (fst (handleSelect (w_props w) (w_next w) (w_state w) o))
                 (w_deps w) (S (w_next w)) with
    | Some w' =>
        Some (w', snd (handleSelect (w_props w) (w_next w) (w_state w) o))
    | None => None
    end.
Proof. intros Ho Hi. unfold step. now rewrite Ho, Hi. Qed.

(** C4, as amended: in single-select mode, on a widget that is not
    disabled, selecting an option of the open menu closes the menu (and
    clears the highlight) and calls the listener, if there is one, with the
    option's value.  When the widget is uncontrolled the current value
    becomes the option's value; when it is controlled the current value
    stays the one the parent supplies and the internal value is not
    touched.  Selecting the option that is already the current value
    leaves the value as it is and closes the menu. *)
Theorem select_single (w : world) (i : nat) (o : opt) :
  reachable w →
  open (w_state w) = true →
  multi (w_props w) = false →
  disabled (w_props w) = false →
  elems (options (w_props w)) !! i = Some o →
  (∃ w', step w (OptionClick i)
         = Some (w', notify (w_props w) (Single (opt_value o)))
         ∧ w_props w' = w_props w
         ∧ open (w_state w') = false
         ∧ highlightedIdx (w_state w') = HNum (-1)
         ∧ (isControlled (w_props w) = false →
            selectedValue (w_props w') (w_state w') = Single (opt_value o))
         ∧ (isControlled (w_props w) = true →
            selectedValue (w_props w') (w_state w') = value (w_props w)
            ∧ internalValue (w_state w') = internalValue (w_state w)))
  ∧ (onChange (w_props w) = true →
     notify (w_props w) (Single (opt_value o))
     = [Changed (Single (opt_value o))])
  ∧ (∀ f s,
       selectedValue (w_props w) s = Single (opt_value o) →
       selectedValue (w_props w) (fst (handleSelect (w_props w) f s o))
       = Single (opt_value o)
       ∧ open (fst (handleSelect (w_props w) f s o)) = false
       ∧ snd (handleSelect (w_props w) f s o)
         = notify (w_props w) (Single (opt_value o))).
Proof.
  intros Hr Ho Hm Hd Hi.
  apply reachable_deps in Hr as Hdeps.
  split; [|split].
  - rewrite (step_OptionClick _ _ _ Ho Hi).
    rewrite (handleSelect_single_eq _ _ _ _ Hm Hd). simpl.
    rewrite (commit_rerun _ _ _ _ (HNum (-1))).
    + eexists. split; [reflexivity|]. simpl.
      split; [reflexivity|]. split; [reflexivity|]. split; [reflexivity|].
      unfold selectedValue. split; intros Hc; rewrite Hc; simpl; auto.
    + rewrite Hdeps. unfold same_deps. simpl. now rewrite Ho.
    + now apply highlight_effect_closed.
  - intros Hc. unfold notify. now rewrite Hc.
  - intros f s Hs. rewrite (handleSelect_single_eq _ _ _ _ Hm Hd). simpl.
    split; [|split; reflexivity].
    revert Hs. unfold selectedValue. destruct (isControlled (w_props w)); auto.
Qed.

Lemma select_single_witness :
  (∃ w', step abc_second (OptionClick 1)
         = Some (w', notify (w_props abc_second) (Single (VNum 2)))
         ∧ w_props w' = w_props abc_second
         ∧ open (w_state w') = false
         ∧ highlightedIdx (w_state w') = HNum (-1)
         ∧ (isControlled (w_props abc_second) = false →
            selectedValue (w_props w') (w_state w') = Single (VNum 2))
         ∧ (isControlled (w_props abc_second) = true →
            selectedValue (w_props w') (w_state w') = value (w_props abc_second)
            ∧ internalValue (w_state w') = internalValue (w_state abc_second)))
  ∧ (onChange (w_props abc_second) = true →
     notify (w_props abc_second) (Single (VNum 2)) = [Changed (Single (VNum 2))])
  ∧ (∀ f s,
       selectedValue (w_props abc_second) s = Single (VNum 2) →
       selectedValue (w_props abc_second)
                     (fst (handleSelect (w_props abc_second) f s (Opt "B" (VNum 2))))
       = Single (VNum 2)
       ∧ open (fst (handleSelect (w_props abc_second) f s (Opt "B" (VNum 2)))) = false
       ∧ snd (handleSelect (w_props abc_second) f s (Opt "B" (VNum 2)))
         = notify (w_props abc_second) (Single (VNum 2))).
Proof.
  apply (select_single abc_second 1 (Opt "B" (VNum 2))).
  - exact abc_second_reachable.
  - reflexivity.
  - reflexivity.
  - reflexivity.
  - reflexivity.
Defined.

(** C4 as stated fails on a controlled widget: with [value = 1] supplied by
    the parent, selecting option B (value 2) closes the menu and notifies
    the listener, but the current value is still 1. *)
Lemma select_single_controlled_keeps_value :
  ∃ w0 w1 w2,
    mount abc_controlled = Some w0
    ∧ step w0 TriggerClick = Some (w1, [])
    ∧ multi (w_props w1) = false ∧ disabled (w_props w1) = false
    ∧ step w1 (OptionClick 1) = Some (w2, [Changed (Single (VNum 2))])
    ∧ open (w_state w2) = false
    ∧ selectedValue (w_props w2) (w_state w2) = Single (VNum 1)
    ∧ selectedValue (w_props w2) (w_state w2) ≠ Single (VNum 2).
Proof.
  eexists _, _, _.
  split; [vm_compute; reflexivity|].
  split; [vm_compute; reflexivity|].
  split; [reflexivity|]. split; [reflexivity|].
  split; [vm_compute; reflexivity|].
  split; [reflexivity|]. split; [reflexivity|]. discriminate.
Qed.

End SelectionClaims.

Section MultiSelectClaims.

Import Dropdown.
Open Scope Z_scope.

(** In multi-select mode the effect always produces a number, so a render
    always succeeds. *)
Lemma commit_multi (p : props) (s : state) (prev : deps) (next : ref) :
  multi p = true →
  ∃ w', commit p s prev next = Some w'
        ∧ w_props w' = p ∧ w_next w' = next
        ∧ w_deps w' = deps_of p s
        ∧ open (w_state w') = open s
        ∧ internalValue (w_state w') = internalValue s
        ∧ (same_deps prev (deps_of p s) = false → open s = true →
           highlightedIdx (w_state w') = HNum 0).
Proof.
  intros Hm. unfold commit. destruct (same_deps prev (deps_of p s)).
  - eexists. split; [reflexivity|]. simpl. repeat split. discriminate.
  - assert (Hh : ∃ h, highlight_effect p s = Some h
                      ∧ (open s = true → h = HNum 0)).
    { destruct (open s) eqn:Eo.
      - rewrite highlight_effect_multi by assumption. eauto.
      - rewrite highlight_effect_closed by assumption.
        eexists. split; [reflexivity|discriminate]. }
    destruct Hh as (h & -> & Hh).
    eexists. split; [reflexivity|]. simpl. repeat split. intros _. exact Hh.
Qed.

(** One option click in multi-select mode. *)
Lemma select_multi_step (w : world) (i : nat) (o : opt) :
  open (w_state w) = true →
  multi (w_props w) = true →
  disabled (w_props w) = false →
  elems (options (w_props w)) !! i = Some o →
  let newVals :=
    Multiple (Array (w_next w)
                    (toggle (oldVals (selectedValue (w_props w) (w_state w)))
                            (opt_value o))) in
  ∃ w', step w (OptionClick i) = Some (w', notify (w_props w) newVals)
        ∧ w_props w' = w_props w
        ∧ open (w_state w') = true
        ∧ (isControlled (w_props w) = false →
           selectedValue (w_props w') (w_state w') = newVals)
        ∧ (isControlled (w_props w) = true →
           selectedValue (w_props w') (w_state w') = value (w_props w)
           ∧ internalValue (w_state w') = internalValue (w_state w)).
Proof.
  intros Ho Hm Hd Hi newVals.
  rewrite (step_OptionClick _ _ _ Ho Hi).
  rewrite (handleSelect_multi_eq _ _ _ _ Hm Hd). fold newVals. simpl.
  destruct (commit_multi (w_props w)
              (if isControlled (w_props w) then w_state w
               else setInternalValue newVals (w_state w))
              (w_deps w) (S (w_next w)) Hm)
    as (w' & -> & Hp & _ & _ & Hopen & Hint & _).
  exists w'. split; [reflexivity|]. split; [exact Hp|].
  rewrite Hp. unfold selectedValue.
  destruct (isControlled (w_props w)); simpl in *.
  - split; [congruence|]. split; [discriminate|]. auto.
  - split; [congruence|]. split; [auto|discriminate].
Qed.

(** C5, as amended: in multi-select mode, on a widget that is not disabled,
    selecting an option of the open menu leaves the menu open and calls the
    listener, if there is one, with a new array: the current values plus the
    option's value when it was absent, or without any occurrence of it when
    it was present.  When the widget is uncontrolled that array becomes the
    current value, and a second selection of the same option yields a
    collection with the same members as the original one (a permutation of
    it when the original has no duplicates).  When the widget is controlled
    the current value stays the one the parent supplies. *)
Theorem select_multi (w : world) (i : nat) (o : opt) :
  open (w_state w) = true →
  multi (w_props w) = true →
  disabled (w_props w) = false →
  elems (options (w_props w)) !! i = Some o →
  let old := oldVals (selectedValue (w_props w) (w_state w)) in
  let v := opt_value o in
  let newVals := Multiple (Array (w_next w) (toggle old v)) in
  (v ∉ old → toggle old v = old ++ [v])
  ∧ (v ∈ old → toggle old v = filter (λ x, x ≠ v) old ∧ v ∉ toggle old v)
  ∧ ∃ w', step w (OptionClick i) = Some (w', notify (w_props w) newVals)
          ∧ open (w_state w') = true
          ∧ (isControlled (w_props w) = true →
             selectedValue (w_props w') (w_state w') = value (w_props w)
             ∧ internalValue (w_state w') = internalValue (w_state w))
          ∧ (isControlled (w_props w) = false →
             selectedValue (w_props w') (w_state w') = newVals
             ∧ ∃ w'' twice,
                 step w' (OptionClick i)
                 = Some (w'', notify (w_props w) (Multiple (Array (w_next w') twice)))
                 ∧ open (w_state w'') = true
                 ∧ selectedValue (w_props w'') (w_state w'')
                   = Multiple (Array (w_next w') twice)
                 ∧ twice = toggle (toggle old v) v
                 ∧ (∀ x, x ∈ twice ↔ x ∈ old)
                 ∧ (NoDup old → twice ≡ₚ old)).
Proof.
  intros Ho Hm Hd Hi old v newVals.
  split; [apply toggle_absent|].
  split.
  { intros Hin. rewrite (toggle_present _ _ Hin). split; [reflexivity|].
    apply filter_removes. }
  destruct (select_multi_step w i o Ho Hm Hd Hi)
    as (w' & Hs & Hp & Ho' & Hunc & Hctl).
  exists w'. split; [exact Hs|]. split; [exact Ho'|]. split; [exact Hctl|].
  intros Hc. pose proof (Hunc Hc) as Hsel. split; [exact Hsel|].
  assert (Hm' : multi (w_props w') = true) by now rewrite Hp.
  assert (Hd' : disabled (w_props w') = false) by now rewrite Hp.
  assert (Hi' : elems (options (w_props w')) !! i = Some o) by now rewrite Hp.
  destruct (select_multi_step w' i o Ho' Hm' Hd' Hi')
    as (w'' & Hs' & Hp' & Ho'' & Hunc' & _).
  rewrite Hp in Hunc', Hs', Hsel. specialize (Hunc' Hc).
  rewrite Hsel in Hs', Hunc'. simpl in Hs', Hunc'.
  exists w'', (toggle (toggle old v) v).
  split; [exact Hs'|]. split; [exact Ho''|]. split; [exact Hunc'|].
  split; [reflexivity|]. split.
  - intros x. apply toggle_twice_members.
  - apply toggle_twice_Permutation.
Qed.

Lemma select_multi_witness :
  let old := oldVals (selectedValue (w_props abc_multi_third)
                                    (w_state abc_multi_third)) in
  let v := VNum 2 in
  let newVals := Multiple (Array (w_next abc_multi_third) (toggle old v)) in
  (v ∉ old → toggle old v = old ++ [v])
  ∧ (v ∈ old → toggle old v = filter (λ x, x ≠ v) old ∧ v ∉ toggle old v)
  ∧ ∃ w', step abc_multi_third (OptionClick 1)
          = Some (w', notify (w_props abc_multi_third) newVals)
          ∧ open (w_state w') = true
          ∧ (isControlled (w_props abc_multi_third) = true →
             selectedValue (w_props w') (w_state w')
             = value (w_props abc_multi_third)
             ∧ internalValue (w_state w')
               = internalValue (w_state abc_multi_third))
          ∧ (isControlled (w_props abc_multi_third) = false →
             selectedValue (w_props w') (w_state w') = newVals
             ∧ ∃ w'' twice,
                 step w' (OptionClick 1)
                 = Some (w'', notify (w_props abc_multi_third)
                                     (Multiple (Array (w_next w') twice)))
                 ∧ open (w_state w'') = true
                 ∧ selectedValue (w_props w'') (w_state w'')
                   = Multiple (Array (w_next w') twice)
                 ∧ twice = toggle (toggle old v) v
                 ∧ (∀ x, x ∈ twice ↔ x ∈ old)
                 ∧ (NoDup old → twice ≡ₚ old)).
Proof.
  apply (select_multi abc_multi_third 1 (Opt "B" (VNum 2))).
  - reflexivity.
  - reflexivity.
  - reflexivity.
  - reflexivity.
Defined.

(** C5 as stated fails on a controlled widget: with [value = [1]] supplied
    by the parent, selecting option B (value 2) notifies the listener with
    [[1, 2]], but 2 is not in the current selection afterwards.  It also
    fails on a disabled widget: once the parent has disabled an open
    multi-select menu, selecting option B changes nothing and notifies
    nobody. *)
Lemma select_multi_not_toggled :
  (∃ w0 w1 w2 r,
     mount abc_multi_controlled = Some w0
     ∧ step w0 TriggerClick = Some (w1, [])
     ∧ multi (w_props w1) = true ∧ disabled (w_props w1) = false
     ∧ isSelected (w_props w1) (w_state w1) (VNum 2) = false
     ∧ step w1 (OptionClick 1)
       = Some (w2, [Changed (Multiple (Array r [VNum 1; VNum 2]))])
     ∧ open (w_state w2) = true
     ∧ selectedValue (w_props w2) (w_state w2) = Multiple (Array 1%nat [VNum 1])
     ∧ isSelected (w_props w2) (w_state w2) (VNum 2) = false)
  ∧ (∃ w0 w1 w2 w3,
       mount abc_multi = Some w0
       ∧ step w0 TriggerClick = Some (w1, [])
       ∧ event_ok w1 (ParentRender abc_multi_disabled)
       ∧ step w1 (ParentRender abc_multi_disabled) = Some (w2, [])
       ∧ multi (w_props w2) = true ∧ onChange (w_props w2) = true
       ∧ open (w_state w2) = true
       ∧ isSelected (w_props w2) (w_state w2) (VNum 2) = false
       ∧ step w2 (OptionClick 1) = Some (w3, [])
       ∧ isSelected (w_props w3) (w_state w3) (VNum 2) = false).
Proof.
  split.
  - eexists _, _, _, _.
    split; [vm_compute; reflexivity|].
    split; [vm_compute; reflexivity|].
    split; [reflexivity|]. split; [reflexivity|].
    split; [vm_compute; reflexivity|].
    split; [vm_compute; reflexivity|].
    split; [reflexivity|]. split; [reflexivity|]. vm_compute. reflexivity.
  - eexists _, _, _, _.
    split; [vm_compute; reflexivity|].
    split; [vm_compute; reflexivity|].
    split; [intros _; reflexivity|].
    split; [vm_compute; reflexivity|].
    split; [reflexivity|]. split; [reflexivity|]. split; [reflexivity|].
    split; [vm_compute; reflexivity|].
    split; [vm_compute; reflexivity|]. vm_compute. reflexivity.
Qed.

(** A selection with a repeated value, which a parent or a default value
    can supply, is where two toggles change the collection by the source's
    own [valueEquals]: [[1, 1]] becomes [[]] and then [[1]]. *)
Example toggle_twice_duplicates :
  toggle (toggle [VNum 1; VNum 1] (VNum 1)) (VNum 1) = [VNum 1]
  ∧ valueEquals (Multiple (Array 0%nat [VNum 1; VNum 1]))
                (Multiple (Array 1%nat [VNum 1])) true = false.
Proof. split; vm_compute; reflexivity. Qed.

End MultiSelectClaims.

(** ** Claims about the controlled mode *)

Section ControlledClaims.

Import Dropdown.
Open Scope Z_scope.

(** The value [handleSelect] means to select: the option's value, or the
    toggled array. *)
Lemma handleSelect_notifies (p : props) (f : ref) (s : state) (o : opt) :
  disabled p = false →
  snd (handleSelect p f s o)
  = notify p (if multi p
              then Multiple (Array f (toggle (oldVals (selectedValue p s))
                                             (opt_value o)))
              else Single (opt_value o)).
Proof.
  intros Hd. unfold handleSelect. rewrite Hd. now destruct (multi p).
Qed.

(** C6, as amended: on a controlled widget [handleSelect] never changes the
    internal value, and the current value and what [isSelected] reports
    stay those of the value the parent supplies.  Unless the widget is
    disabled, the listener, if there is one, is called with the intended
    value: the option's value in single-select mode, the toggled array in
    multi-select mode.  On a disabled widget [handleSelect] does nothing and
    calls nothing. *)
Theorem select_controlled (p : props) (f : ref) (s : state) (o : opt) :
  isControlled p = true →
  internalValue (fst (handleSelect p f s o)) = internalValue s
  ∧ selectedValue p (fst (handleSelect p f s o)) = value p
  ∧ (∀ x, isSelected p (fst (handleSelect p f s o)) x = isSelected p s x)
  ∧ (disabled p = false →
     snd (handleSelect p f s o)
     = notify p (if multi p
                 then Multiple (Array f (toggle (oldVals (value p)) (opt_value o)))
                 else Single (opt_value o)))
  ∧ (disabled p = false → onChange p = true →
     ∃ v, snd (handleSelect p f s o) = [Changed v])
  ∧ (disabled p = true → handleSelect p f s o = (s, [])).
Proof.
  intros Hc.
  assert (Hsel : ∀ s', selectedValue p s' = value p).
  { intros s'. unfold selectedValue. now rewrite Hc. }
  split; [|split; [|split; [|split; [|split]]]].
  - unfold handleSelect. rewrite Hc. destruct (disabled p), (multi p); reflexivity.
  - apply Hsel.
  - intros x. unfold isSelected. now rewrite !Hsel.
  - intros Hd. rewrite (handleSelect_notifies _ _ _ _ Hd). now rewrite Hsel.
  - intros Hd Hon. rewrite (handleSelect_notifies _ _ _ _ Hd).
    unfold notify. rewrite Hon. eauto.
  - intros Hd. unfold handleSelect. now rewrite Hd.
Qed.

Lemma select_controlled_witness :
  isControlled abc_controlled = true
  ∧ internalValue (fst (handleSelect abc_controlled 5%nat
                          (State true (HNum 0) Null) (Opt "B" (VNum 2))))
    = Null
  ∧ snd (handleSelect abc_controlled 5%nat
           (State true (HNum 0) Null) (Opt "B" (VNum 2)))
    = [Changed (Single (VNum 2))].
Proof.
  pose proof (select_controlled abc_controlled 5%nat
                (State true (HNum 0) Null) (Opt "B" (VNum 2)) eq_refl)
    as (Hint & _ & _ & Hout & _).
  split; [reflexivity|]. split; [exact Hint|]. exact (Hout eq_refl).
Defined.

(** C6 as stated fails when the widget is disabled: the parent disables a
    controlled widget whose menu is open, the user clicks option B, and the
    listener is not called. *)
Lemma select_controlled_disabled_silent :
  ∃ w0 w1 w2 w3,
    mount abc_controlled = Some w0
    ∧ step w0 TriggerClick = Some (w1, [])
    ∧ event_ok w1 (ParentRender abc_controlled_disabled)
    ∧ step w1 (ParentRender abc_controlled_disabled) = Some (w2, [])
    ∧ reachable w2
    ∧ isControlled (w_props w2) = true
    ∧ onChange (w_props w2) = true
    ∧ open (w_state w2) = true
    ∧ elems (options (w_props w2)) !! 1%nat = Some (Opt "B" (VNum 2))
    ∧ step w2 (OptionClick 1) = Some (w3, [])
    ∧ snd (handleSelect (w_props w2) (w_next w2) (w_state w2) (Opt "B" (VNum 2)))
      ≠ [Changed (Single (VNum 2))].
Proof.
  assert (Hm : mount abc_controlled
               = Some (World abc_controlled (State false (HNum (-1)) Null)
                             (Deps false (Single (VNum 1)) false 0%nat) 2%nat))
    by (vm_compute; reflexivity).
  assert (H1 : step (World abc_controlled (State false (HNum (-1)) Null)
                           (Deps false (Single (VNum 1)) false 0%nat) 2%nat)
                    TriggerClick
               = Some (World abc_controlled (State true (HNum 0) Null)
                             (Deps true (Single (VNum 1)) false 0%nat) 3%nat, []))
    by (vm_compute; reflexivity).
  eexists _, _, _, _.
  split; [exact Hm|]. split; [exact H1|].
  split; [intros _; reflexivity|].
  split; [vm_compute; reflexivity|].
  split.
  { eapply (reachable_step
              (World abc_controlled (State true (HNum 0) Null)
                     (Deps true (Single (VNum 1)) false 0%nat) 3%nat)
              (ParentRender abc_controlled_disabled));
      [|intros _; reflexivity|vm_compute; reflexivity].
    eapply (reachable_step _ TriggerClick); [|exact I|exact H1].
    eapply reachable_mount. exact Hm. }
  split; [reflexivity|]. split; [reflexivity|]. split; [reflexivity|].
  split; [reflexivity|]. split; [vm_compute; reflexivity|].
  vm_compute. discriminate.
Qed.

(** C7, as amended: at every render the widget is either controlled or
    uncontrolled, and which one is decided by the [value] prop of that
    render: controlled exactly when the value is not null.  Events of the
    user never change the mode; a re-render by the parent keeps it exactly
    when it keeps the presence of the value. *)
Theorem controlled_follows_value (w : world) (e : event) (w' : world)
        (out : list notification) :
  step w e = Some (w', out) →
  (isControlled (w_props w') = true ↔ value (w_props w') ≠ Null)
  ∧ (isControlled (w_props w') = false ↔ value (w_props w') = Null)
  ∧ selectedValue (w_props w') (w_state w')
    = (if isControlled (w_props w') then value (w_props w')
       else internalValue (w_state w'))
  ∧ (∀ p', e = ParentRender p' → w_props w' = p')
  ∧ ((∀ p', e ≠ ParentRender p') →
     isControlled (w_props w') = isControlled (w_props w))
  ∧ (∀ p', e = ParentRender p' →
           (isControlled (w_props w') = isControlled (w_props w)
            ↔ (value p' = Null ↔ value (w_props w) = Null))).
Proof.
  intros Hs.
  assert (Hprops : w_props w' = match e with
                                | ParentRender p' => p'
                                | _ => w_props w
                                end).
  { revert Hs. unfold step.
    destruct e as [|k|i|i|t|p']; simpl;
      repeat match goal with
             | |- context [match commit ?a ?b ?c ?d with _ => _ end] =>
                 let Hc := fresh "Hc" in
                 destruct (commit a b c d) eqn:Hc;
                 [apply commit_Some in Hc as (Hc & _)|discriminate]
             | |- context [if ?b then _ else _] => destruct b
             | |- context [match ?l !! ?i with _ => _ end] => destruct (l !! i)
             end;
      intros [= <- _]; auto. }
  split; [|split; [|split; [|split; [|split]]]].
  - unfold isControlled. destruct (value (w_props w')); split; congruence.
  - unfold isControlled. destruct (value (w_props w')); split; congruence.
  - reflexivity.
  - intros p' ->. exact Hprops.
  - intros Hne. destruct e; try now rewrite Hprops. now destruct (Hne p).
  - intros p' ->. rewrite Hprops. unfold isControlled.
    destruct (value p'), (value (w_props w)); split; try congruence;
      try (intros [H1 H2]; try discriminate (H1 eq_refl);
           try discriminate (H2 eq_refl); reflexivity);
      try (intros _; split; congruence).
Qed.

Lemma controlled_follows_value_witness :
  ∃ w', step abc_second (ParentRender abc_controlled) = Some (w', [])
        ∧ (isControlled (w_props w') = true ↔ value (w_props w') ≠ Null)
        ∧ w_props w' = abc_controlled.
Proof.
  eexists. split; [vm_compute; reflexivity|].
  pose proof (controlled_follows_value abc_second (ParentRender abc_controlled)
                _ [] eq_refl) as (H1 & _ & _ & H4 & _).
  split; [exact H1|]. exact (H4 _ eq_refl).
Defined.

(** C7 as stated fails: the widget is mounted with [value = 1], hence
    controlled, and becomes uncontrolled when the parent renders it again
    without a value. *)
Lemma controlled_mode_changes_after_mount :
  ∃ w0 w1,
    mount abc_controlled = Some w0
    ∧ isControlled (w_props w0) = true
    ∧ event_ok w0 (ParentRender abc_props)
    ∧ step w0 (ParentRender abc_props) = Some (w1, [])
    ∧ reachable w1
    ∧ isControlled (w_props w1) = false
    ∧ selectedValue (w_props w1) (w_state w1) = internalValue (w_state w1).
Proof.
  assert (Hm : mount abc_controlled
               = Some (World abc_controlled (State false (HNum (-1)) Null)
                             (Deps false (Single (VNum 1)) false 0%nat) 2%nat))
    by (vm_compute; reflexivity).
  eexists _, _.
  split; [exact Hm|]. split; [reflexivity|].
  split; [intros _; reflexivity|].
  split; [vm_compute; reflexivity|]. split.
  { eapply (reachable_step
              (World abc_controlled (State false (HNum (-1)) Null)
                     (Deps false (Single (VNum 1)) false 0%nat) 2%nat)
              (ParentRender abc_props));
      [|intros _; reflexivity|vm_compute; reflexivity].
    eapply reachable_mount. exact Hm. }
  split; reflexivity.
Qed.

End ControlledClaims.

(** ** The effect re-runs while the menu is open *)

Section Recompute.

Import Dropdown.
Open Scope Z_scope.

(** A re-render whose selected value or whose option array is another
    object re-runs the effect. *)
Lemma deps_changed (w : world) (p' : props) :
  w_deps w = deps_of (w_props w) (w_state w) →
  Object_is (selectedValue (w_props w) (w_state w))
            (selectedValue p' (w_state w)) = false
  ∨ ref_of (options p') ≠ ref_of (options (w_props w)) →
  same_deps (w_deps w) (deps_of p' (w_state w)) = false.
Proof.
  intros Hd H. rewrite Hd. unfold same_deps. simpl.
  destruct H as [->|Hne].
  - now rewrite andb_false_r.
  - apply Nat.eqb_neq in Hne. rewrite Nat.eqb_sym in Hne. rewrite Hne.
    now rewrite andb_false_r.
Qed.

(** C10: while the menu is open the highlight effect runs again at every
    render in which the selected value or the option array changed, and
    [highlightedIdx] becomes what the effect computes from the new props.
    In multi-select mode that is 0: an option click on an uncontrolled
    widget stores a new array, keeps the menu open and resets the highlight
    to 0 wherever it was, and so does a parent that commits a toggle of a
    controlled widget by passing another array. *)
Theorem highlight_recomputed_while_open (w : world) :
  reachable w →
  open (w_state w) = true →
  (∀ p' w',
     step w (ParentRender p') = Some (w', []) →
     Object_is (selectedValue (w_props w) (w_state w))
               (selectedValue p' (w_state w)) = false
     ∨ ref_of (options p') ≠ ref_of (options (w_props w)) →
     highlight_effect p' (w_state w) = Some (highlightedIdx (w_state w')))
  ∧ (multi (w_props w) = true → disabled (w_props w) = false →
     isControlled (w_props w) = false →
     ∀ i o, elems (options (w_props w)) !! i = Some o →
       ∃ w' newVals,
         step w (OptionClick i) = Some (w', notify (w_props w) newVals)
         ∧ selectedValue (w_props w') (w_state w') = newVals
         ∧ open (w_state w') = true
         ∧ highlightedIdx (w_state w') = HNum 0)
  ∧ (∀ p',
       multi p' = true →
       Object_is (selectedValue (w_props w) (w_state w))
                 (selectedValue p' (w_state w)) = false →
       ∃ w', step w (ParentRender p') = Some (w', [])
             ∧ open (w_state w') = true
             ∧ highlightedIdx (w_state w') = HNum 0).
Proof.
  intros Hr Ho.
  pose proof (reachable_deps _ Hr) as Hset.
  pose proof (reachable_refs_below _ Hr) as [_ Hint].
  split; [|split].
  - intros p' w' Hs Hch. unfold step in Hs.
    destruct (commit p' (w_state w) (w_deps w) _) as [w1|] eqn:Hc;
      [|discriminate].
    injection Hs as <-.
    apply commit_Some in Hc as (_ & _ & _ & _ & _ & Hcase).
    rewrite (deps_changed _ _ Hset Hch) in Hcase.
    destruct Hcase as [[Hf _]|[_ (h & Hh & ->)]]; [discriminate|exact Hh].
  - intros Hm Hd Hc i o Hi.
    rewrite (step_OptionClick _ _ _ Ho Hi).
    rewrite (handleSelect_multi_eq _ _ _ _ Hm Hd). rewrite Hc. simpl.
    set (newVals := Multiple (Array (w_next w) _)).
    destruct (commit_multi (w_props w) (setInternalValue newVals (w_state w))
                (w_deps w) (S (w_next w)) Hm)
      as (w' & -> & Hp & _ & _ & Hopen & Hint' & Hzero).
    exists w', newVals. split; [reflexivity|].
    split; [|split].
    + rewrite Hp. unfold selectedValue. rewrite Hc. exact Hint'.
    + simpl in Hopen. congruence.
    + apply Hzero; [|exact Ho].
      rewrite Hset. unfold same_deps. simpl.
      unfold selectedValue. rewrite Hc. simpl.
      assert (Hobj : Object_is (internalValue (w_state w)) newVals = false).
      { unfold newVals. destruct (internalValue (w_state w)) as [| |a];
          simpl; try reflexivity.
        apply Nat.eqb_neq. simpl in Hint. lia. }
      rewrite Hobj. now rewrite andb_false_r.
  - intros p' Hm Hch.
    unfold step.
    destruct (commit_multi p' (w_state w) (w_deps w)
                (Nat.max (w_next w) (first_free p')) Hm)
      as (w' & -> & _ & _ & _ & Hopen & _ & Hzero).
    exists w'. split; [reflexivity|]. split; [congruence|].
    apply Hzero; [|exact Ho]. apply deps_changed; auto.
Qed.

Lemma highlight_recomputed_while_open_witness :
  highlightedIdx (w_state abc_multi_third) = HNum 2
  ∧ ∃ w' newVals,
      step abc_multi_third (OptionClick 1)
      = Some (w', notify (w_props abc_multi_third) newVals)
      ∧ selectedValue (w_props w') (w_state w') = newVals
      ∧ open (w_state w') = true
      ∧ highlightedIdx (w_state w') = HNum 0.
Proof.
  split; [reflexivity|].
  pose proof (highlight_recomputed_while_open abc_multi_third
                abc_multi_third_reachable eq_refl) as (_ & H & _).
  apply (H eq_refl eq_refl eq_refl 1%nat (Opt "B" (VNum 2))). reflexivity.
Defined.

End Recompute.

(** * Further properties of the code *)

(** ** Placement: the left margin, the flip decision, the life cycle *)

Section PlacementMargins.

Import Placement.
Open Scope Q_scope.

(** X1: when the menu would overflow the right edge and the difference
    [viewport width - menu width - 8] is a number (not NaN), the style's
    [left] is a whole number that is never less than the margin 8 (or plus
    infinity, when the difference is). *)
Theorem overflow_keeps_margins (b m : rect) (vp : viewport) :
  overflows b m vp →
  fsub (fsub (vwidth vp) (width m)) margin ≠ S754_nan →
  ∃ t l w pos,
    updatePosition (Some b) (Some m) vp = Some (Fixed t l w, pos)
    ∧ (l = Infinite false ∨ ∃ z, l = Integer z ∧ (8 <= z)%Z).
Proof.
  intros Ho Hn. unfold updatePosition.
  destruct (vertical b m vp) as [t pos].
  rewrite (horizontal_overflows _ _ _ Ho).
  eexists _, _, _, _. split; [reflexivity|].
  destruct (gt (fsub (fsub (vwidth vp) (width m)) margin) margin) eqn:E.
  - rewrite (Math_max_margin_r _ E). now apply Math_round_above_margin.
  - rewrite (Math_max_margin_l _ Hn E). right. exists 8%Z.
    split; [reflexivity|lia].
Qed.

Lemma overflow_keeps_margins_witness :
  let b := Rect (whole 100) (whole 700) (whole 120) (whole 100) (whole 20) in
  let m := Rect (whole 0) (whole 0) (whole 50) (decimal 3005 1) (whole 50) in
  let vp := Viewport (whole 1000) (whole 800) in
  ∃ t l w pos,
    updatePosition (Some b) (Some m) vp = Some (Fixed t l w, pos)
    ∧ (l = Infinite false ∨ ∃ z, l = Integer z ∧ (8 <= z)%Z).
Proof.
  cbv zeta.
  apply (overflow_keeps_margins
           (Rect (whole 100) (whole 700) (whole 120) (whole 100) (whole 20))
           (Rect (whole 0) (whole 0) (whole 50) (decimal 3005 1) (whole 50))
           (Viewport (whole 1000) (whole 800))).
  - reflexivity.
  - vm_compute. discriminate.
Defined.

(** X2: the position is ['top'] exactly when both parts of the vertical
    test succeed, as the code evaluates them on doubles: a menu that fits
    below the trigger is never flipped, and neither is one for which the
    space above the trigger is not greater than [height + 8].  The style's
    [top] and the position depend on four measurements only (the trigger's
    top and bottom, the menu's height and the viewport's height): the
    horizontal measurements have no influence on them. *)
Theorem vertical_placement_decision (b m : rect) (vp : viewport) :
  ∃ t l w pos,
    updatePosition (Some b) (Some m) vp = Some (Fixed t l w, pos)
    ∧ (pos = pos_top ↔ flips b m vp)
    ∧ (gt (fadd (bottom b) (height m)) (vheight vp) = false → pos = pos_bottom)
    ∧ (gt (top b) (fadd (height m) margin) = false → pos = pos_bottom)
    ∧ (∀ b' m' vp',
         top b' = top b → bottom b' = bottom b → height m' = height m →
         vheight vp' = vheight vp →
         ∃ l' w', updatePosition (Some b') (Some m') vp'
                  = Some (Fixed t l' w', pos)).
Proof.
  assert (Hsame : ∀ b' m' vp',
            top b' = top b → bottom b' = bottom b → height m' = height m →
            vheight vp' = vheight vp → vertical b' m' vp' = vertical b m vp).
  { intros b' m' vp' Ht Hb Hh Hv. unfold vertical. now rewrite Ht, Hb, Hh, Hv. }
  assert (Hdep : ∀ t pos, vertical b m vp = (t, pos) →
            ∀ b' m' vp',
              top b' = top b → bottom b' = bottom b → height m' = height m →
              vheight vp' = vheight vp →
              ∃ l' w', updatePosition (Some b') (Some m') vp'
                       = Some (Fixed (Math_round t) l' w', pos)).
  { intros t pos Hv b' m' vp' Ht Hb Hh Hvh. unfold updatePosition.
    rewrite (Hsame _ _ _ Ht Hb Hh Hvh), Hv. eauto. }
  unfold updatePosition.
  destruct (gt (fadd (bottom b) (height m)) (vheight vp)) eqn:E1;
    destruct (gt (top b) (fadd (height m) margin)) eqn:E2.
  1: { assert (Hf : flips b m vp) by now split.
       pose proof (vertical_flips _ _ _ Hf) as Hv. rewrite Hv.
       eexists _, _, _, _. split; [reflexivity|].
       split; [tauto|]. split; [discriminate|]. split; [discriminate|].
       exact (Hdep _ _ Hv). }
  all: assert (Hn : ¬ flips b m vp) by (intros [H1 H2]; congruence);
    pose proof (vertical_default _ _ _ Hn) as Hv; rewrite Hv;
    eexists _, _, _, _; (split; [reflexivity|]);
    (split; [split; [discriminate|contradiction]|]);
    (split; [reflexivity|]); (split; [reflexivity|]);
    exact (Hdep _ _ Hv).
Qed.

(** X3: closing hides the menu and remembers the last position; a menu that
    is opened while one of its two elements is not attached stays hidden;
    and once both are attached the style and the position depend on the
    current measurement only, not on what the hook held before. *)
Theorem position_effect_lifecycle (button menu : option rect) (vp : viewport)
        (h h' : hook) :
  position_effect false button menu vp h = Hook Hidden (hook_position h)
  ∧ (button = None ∨ menu = None →
     hook_style (position_effect true button menu vp
                   (position_effect false button menu vp h)) = Hidden)
  ∧ (∀ b m, button = Some b → menu = Some m →
            position_effect true button menu vp h
            = position_effect true button menu vp h'
            ∧ ∃ t l w, hook_style (position_effect true button menu vp h)
                       = Fixed t l w).
Proof.
  split; [reflexivity|]. split.
  - intros [-> | ->]; simpl; [reflexivity|now destruct button].
  - intros b m -> ->. unfold position_effect, updatePosition.
    destruct (vertical b m vp) as [t pos]. split; [reflexivity|].
    simpl. eauto.
Qed.

End PlacementMargins.

(** ** valueEquals and the value-to-index object *)

Section ValueHelpers.

Import Dropdown.
Open Scope Z_scope.

(** X4: in multi mode [valueEquals] accepts arrays only, and when the
    first array holds no value twice it accepts exactly the arrays with the
    same values in any order. *)
Theorem valueEquals_multi (v1 v2 : selection) :
  (valueEquals v1 v2 true = true →
   ∃ a b, v1 = Multiple a ∧ v2 = Multiple b
          ∧ length (elems a) = length (elems b)
          ∧ ∀ x, x ∈ elems a → x ∈ elems b)
  ∧ (∀ a b, v1 = Multiple a → v2 = Multiple b → NoDup (elems a) →
            (valueEquals v1 v2 true = true ↔ elems a ≡ₚ elems b)).
Proof.
  assert (Hchar : ∀ a b : array jsval,
            valueEquals (Multiple a) (Multiple b) true = true ↔
            length (elems a) = length (elems b)
            ∧ ∀ x, x ∈ elems a → x ∈ elems b).
  { intros a b. unfold valueEquals. cbn [negb].
    destruct (Nat.eqb_spec (length (elems a)) (length (elems b))) as [He|Hne];
      cbn [negb].
    - rewrite forallb_forall. split.
      + intros H. split; [exact He|]. intros x Hx.
        apply includes_true, H. now apply list_elem_of_In.
      + intros [_ H] x Hx. apply includes_true, H. now apply list_elem_of_In.
    - split; [discriminate|]. intros [He _]. contradiction. }
  split.
  - destruct v1 as [|x|a], v2 as [|y|b]; try discriminate.
    intros H. apply Hchar in H. exists a, b. tauto.
  - intros a b -> -> Hnd. rewrite Hchar. split.
    + intros [Hlen Hsub].
      apply submseteq_length_Permutation; [|lia].
      now apply NoDup_submseteq.
    + intros Hp. split; [now rewrite Hp|].
      intros x Hx. now rewrite <- Hp.
Qed.

Lemma valueEquals_multi_witness :
  NoDup [VNum 1; VNum 2]
  ∧ (valueEquals (Multiple (Array 0%nat [VNum 1; VNum 2]))
                 (Multiple (Array 1%nat [VNum 2; VNum 1])) true = true
     ↔ [VNum 1; VNum 2] ≡ₚ [VNum 2; VNum 1]).
Proof.
  assert (Hnd : NoDup [VNum 1; VNum 2]).
  { apply NoDup_cons. split.
    - intros H. apply list_elem_of_singleton in H. discriminate.
    - apply NoDup_singleton. }
  split; [exact Hnd|].
  exact (proj2 (valueEquals_multi (Multiple (Array 0%nat [VNum 1; VNum 2]))
                                  (Multiple (Array 1%nat [VNum 2; VNum 1])))
               _ _ eq_refl eq_refl Hnd).
Defined.

Lemma last_index_NoDup (os : list opt) (i : nat) (o : opt) :
  NoDup (map (λ o, to_key (opt_value o)) os) →
  os !! i = Some o →
  last_index (to_key (opt_value o)) os = Some i.
Proof.
  revert i. induction os as [|o0 os IH]; intros i Hnd Hi; [discriminate|].
  simpl in Hnd. apply NoDup_cons in Hnd as [Hnot Hnd]. simpl.
  destruct i as [|i]; simpl in Hi.
  - injection Hi as ->.
    assert (Hnone : last_index (to_key (opt_value o)) os = None).
    { apply last_index_None. intros o' Ho' Hk. apply Hnot.
      rewrite <- Hk. apply list_elem_of_fmap. eauto. }
    rewrite Hnone. now rewrite bool_decide_eq_true_2.
  - now rewrite (IH i Hnd Hi).
Qed.

(** X5: when the options have distinct keys, every option is found under
    its own value at its own index, except an option whose value is the
    string [__proto__], which is never stored; a key that no option carries
    is [undefined], unless it names a member of [Object.prototype]. *)
Theorem value2idx_round_trip (os : list opt) :
  NoDup (map (λ o, to_key (opt_value o)) os) →
  (∀ i o, os !! i = Some o → to_key (opt_value o) ≠ "__proto__" →
          get_prop (value2idx os) (to_key (opt_value o)) = Own i)
  ∧ (∀ k, (∀ o, o ∈ os → to_key (opt_value o) ≠ k) →
          k ∉ Object_prototype_keys →
          get_prop (value2idx os) k = Undefined)
  ∧ get_prop (value2idx os) "__proto__" = Inherited.
Proof.
  intros Hnd. split; [|split].
  - intros i o Hi Hk. unfold get_prop. rewrite value2idx_lookup.
    rewrite bool_decide_eq_false_2 by exact Hk.
    now rewrite (last_index_NoDup _ _ _ Hnd Hi).
  - intros k Hnone Hk. unfold get_prop. rewrite value2idx_lookup.
    apply last_index_None in Hnone.
    case_bool_decide; [|rewrite Hnone];
      now rewrite bool_decide_eq_false_2 by exact Hk.
  - unfold get_prop. rewrite value2idx_lookup. reflexivity.
Qed.

Lemma value2idx_round_trip_witness :
  get_prop (value2idx abc) (to_key (VNum 2)) = Own 1%nat.
Proof.
  assert (Hnd : NoDup (map (λ o, to_key (opt_value o)) abc)).
  { apply (bool_decide_unpack _). vm_compute. exact I. }
  apply (proj1 (value2idx_round_trip abc Hnd) 1%nat (Opt "B" (VNum 2))).
  - reflexivity.
  - vm_compute. discriminate.
Defined.

End ValueHelpers.

(** ** What is shown as selected *)

Section Shown.

Import Dropdown.
Open Scope Z_scope.

Lemma isSelected_multi (p : props) (s : state) (x : jsval) :
  multi p = true →
  isSelected p s x = includes (oldVals (selectedValue p s)) x.
Proof.
  intros Hm. unfold isSelected. rewrite Hm. simpl.
  destruct (selectedValue p s); try reflexivity;
    symmetry; apply includes_false; apply not_elem_of_nil.
Qed.

(** X6: on an uncontrolled multi-select widget that is not disabled,
    [handleSelect] flips whether the option's value is selected and leaves
    every other value as it was. *)
Theorem toggle_flips_one (p : props) (f : ref) (s : state) (o : opt) (x : jsval) :
  multi p = true → disabled p = false → isControlled p = false →
  isSelected p (fst (handleSelect p f s o)) x
  = (if bool_decide (x = opt_value o) then negb (isSelected p s x)
     else isSelected p s x).
Proof.
  intros Hm Hd Hc.
  rewrite !(isSelected_multi _ _ _ Hm).
  rewrite (handleSelect_multi_eq _ _ _ _ Hm Hd). rewrite Hc. simpl.
  unfold selectedValue at 1. rewrite Hc. simpl.
  set (old := oldVals (selectedValue p s)).
  pose proof (elem_of_toggle old (opt_value o) x) as Ht.
  case_bool_decide as Hx.
  - subst x. destruct (includes old (opt_value o)) eqn:E; simpl.
    + apply includes_true in E. apply includes_false. rewrite Ht. tauto.
    + apply includes_false in E. apply includes_true. rewrite Ht. tauto.
  - destruct (includes old x) eqn:E.
    + apply includes_true in E. apply includes_true. rewrite Ht. tauto.
    + apply includes_false in E. apply includes_false. rewrite Ht. tauto.
Qed.

Lemma toggle_flips_one_witness :
  isSelected abc_multi
             (fst (handleSelect abc_multi 9%nat
                     (State true (HNum 0) (Multiple (Array 1%nat [VNum 1])))
                     (Opt "B" (VNum 2))))
             (VNum 1)
  = isSelected abc_multi (State true (HNum 0) (Multiple (Array 1%nat [VNum 1])))
               (VNum 1).
Proof.
  exact (toggle_flips_one abc_multi 9%nat
           (State true (HNum 0) (Multiple (Array 1%nat [VNum 1])))
           (Opt "B" (VNum 2)) (VNum 1) eq_refl eq_refl eq_refl).
Defined.

Lemma find_selected_Some (v : jsval) (os : list opt) (o : opt) :
  find_selected (Single v) os = Some o ↔
  ∃ i, os !! i = Some o ∧ opt_value o = v
       ∧ ∀ j o', (j < i)%nat → os !! j = Some o' → opt_value o' ≠ v.
Proof.
  simpl. induction os as [|o0 os IH]; simpl.
  - split; [discriminate|]. intros (i & Hi & _). destruct i; discriminate.
  - case_bool_decide as Hv.
    + split.
      * intros [= <-]. exists 0%nat. split; [reflexivity|].
        split; [exact Hv|]. intros j o' Hj. lia.
      * intros ([|i] & Hi & Hv' & Hfirst); [simpl in Hi; congruence|].
        exfalso. apply (Hfirst 0%nat o0); [lia|reflexivity|exact Hv].
    + rewrite IH. split.
      * intros (i & Hi & Hv' & Hfirst). exists (S i).
        split; [exact Hi|]. split; [exact Hv'|].
        intros [|j] o' Hj Ho'; simpl in Ho'; [congruence|].
        apply (Hfirst j); [lia|exact Ho'].
      * intros ([|i] & Hi & Hv' & Hfirst); simpl in Hi; [congruence|].
        exists i. split; [exact Hi|]. split; [exact Hv'|].
        intros j o' Hj Ho'. apply (Hfirst (S j)); [lia|exact Ho'].
Qed.

Lemma find_selected_None (v : jsval) (os : list opt) :
  find_selected (Single v) os = None ↔ ∀ o, o ∈ os → opt_value o ≠ v.
Proof.
  simpl. induction os as [|o0 os IH]; simpl.
  - split; [intros _ o Ho; inversion Ho|reflexivity].
  - case_bool_decide as Hv.
    + split; [discriminate|]. intros H. exfalso. apply (H o0); [left|exact Hv].
    + rewrite IH. split.
      * intros H o Ho. apply elem_of_cons in Ho as [->|Ho]; auto.
      * intros H o Ho. apply H. now right.
Qed.

(** X7: the default label in single-select mode.  A selected value that is
    falsy (the number 0 or the empty string) shows the placeholder even
    when an option carries it and is marked selected; any other value shows
    the label of the first option that carries it, and the placeholder when
    none does. *)
Theorem label_single (p : props) (s : state) (placeholder : string) (v : jsval) :
  multi p = false → selectedValue p s = Single v →
  (truthy v = false →
   getA11ySelectedLabel p s placeholder = placeholder
   ∧ isSelected p s v = true)
  ∧ (truthy v = true →
     (∀ o, o ∈ elems (options p) → opt_value o ≠ v) →
     getA11ySelectedLabel p s placeholder = placeholder)
  ∧ (truthy v = true →
     ∀ i o, elems (options p) !! i = Some o → opt_value o = v →
            (∀ j o', (j < i)%nat → elems (options p) !! j = Some o' →
                     opt_value o' ≠ v) →
            getA11ySelectedLabel p s placeholder = opt_label o).
Proof.
  intros Hm Hs. unfold getA11ySelectedLabel, isSelected.
  rewrite Hm, Hs. simpl. split; [|split].
  - intros ->. simpl. split; [reflexivity|]. now apply bool_decide_eq_true.
  - intros -> Hnone. simpl.
    apply find_selected_None in Hnone. simpl in Hnone. now rewrite Hnone.
  - intros -> i o Hi Hv Hfirst. simpl.
    assert (Hf : find_selected (Single v) (elems (options p)) = Some o)
      by (apply find_selected_Some; eauto).
    simpl in Hf. now rewrite Hf.
Qed.

Lemma label_single_witness :
  getA11ySelectedLabel abc_props (State false (HNum (-1)) (Single (VNum 2)))
                       "Select..."
  = "B".
Proof.
  pose proof (label_single abc_props
                (State false (HNum (-1)) (Single (VNum 2))) "Select..."
                (VNum 2) eq_refl eq_refl) as (_ & _ & H).
  apply (H eq_refl 1%nat (Opt "B" (VNum 2)) eq_refl eq_refl).
  intros [|[|j]] o' Hj Ho'; try lia.
  injection Ho' as <-. discriminate.
Defined.

(** X8: the default label in multi-select mode depends on which values are
    selected, not on the order in which they were selected: two selections
    with the same members give the same label. *)
Theorem label_multi_order (p : props) (s s' : state) (placeholder : string)
        (a a' : array jsval) :
  multi p = true →
  selectedValue p s = Multiple a → selectedValue p s' = Multiple a' →
  (∀ x, x ∈ elems a ↔ x ∈ elems a') →
  getA11ySelectedLabel p s placeholder = getA11ySelectedLabel p s' placeholder.
Proof.
  intros Hm Hs Hs' Hsame. unfold getA11ySelectedLabel.
  rewrite Hm, Hs, Hs'. simpl.
  assert (Hnil : bool_decide (elems a = []) = bool_decide (elems a' = [])).
  { apply bool_decide_ext. split; intros Hn.
    - destruct (elems a') as [|x l]; [reflexivity|].
      exfalso. assert (Hx : x ∈ elems a) by (apply Hsame; left).
      rewrite Hn in Hx. inversion Hx.
    - destruct (elems a) as [|x l]; [reflexivity|].
      exfalso. assert (Hx : x ∈ elems a') by (apply Hsame; left).
      rewrite Hn in Hx. inversion Hx. }
  rewrite Hnil. destruct (bool_decide (elems a' = [])); [reflexivity|].
  assert (Hfilter :
            filter (λ o, includes (elems a) (opt_value o) = true) (elems (options p))
            = filter (λ o, includes (elems a') (opt_value o) = true) (elems (options p))).
  { apply list_filter_iff. intros o. rewrite !includes_true. apply Hsame. }
  now rewrite Hfilter.
Qed.

Lemma label_multi_order_witness :
  getA11ySelectedLabel abc_multi
    (State true (HNum 0) (Multiple (Array 1%nat [VNum 3; VNum 1]))) "Select..."
  = getA11ySelectedLabel abc_multi
      (State true (HNum 0) (Multiple (Array 2%nat [VNum 1; VNum 3]))) "Select...".
Proof.
  apply (label_multi_order abc_multi
           (State true (HNum 0) (Multiple (Array 1%nat [VNum 3; VNum 1])))
           (State true (HNum 0) (Multiple (Array 2%nat [VNum 1; VNum 3])))
           "Select..."
           (Array 1%nat [VNum 3; VNum 1]) (Array 2%nat [VNum 1; VNum 3])
           eq_refl eq_refl eq_refl).
  intros x. simpl. rewrite !elem_of_cons. tauto.
Defined.

(** X9: what [renderedValue] hands to the caller's [renderValue] agrees
    with [isSelected].  In single-select mode it is an option marked
    selected, or [null] exactly when no option is marked selected; in
    multi-select mode with an array value it is the options marked
    selected, in the order of the option list. *)
Theorem renderValue_arg_selected (p : props) (s : state) :
  (multi p = false →
   ∃ r, renderValue_arg p s = Some (RenderedOption r)
        ∧ (∀ o, r = Some o →
                o ∈ elems (options p) ∧ isSelected p s (opt_value o) = true)
        ∧ (r = None ↔
           ∀ o, o ∈ elems (options p) → isSelected p s (opt_value o) = false))
  ∧ (multi p = true → ∀ a, selectedValue p s = Multiple a →
     renderValue_arg p s
     = Some (RenderedOptions
               (filter (λ o, isSelected p s (opt_value o) = true)
                       (elems (options p))))).
Proof.
  split.
  - intros Hm. unfold renderValue_arg, isSelected. rewrite Hm. simpl.
    eexists. split; [reflexivity|].
    destruct (selectedValue p s) as [|v|a]; simpl.
    + split; [discriminate|]. split; reflexivity.
    + split.
      * intros o Ho. apply find_some in Ho as [Hin Hv].
        apply bool_decide_eq_true in Hv.
        split; [now apply list_elem_of_In|]. now apply bool_decide_eq_true.
      * pose proof (find_selected_None v (elems (options p))) as Hn.
        simpl in Hn. rewrite Hn. split; intros H o Ho.
        -- apply bool_decide_eq_false. intros Hv. now apply (H o Ho).
        -- intros Hv. specialize (H o Ho).
           apply bool_decide_eq_false in H. now apply H.
    + split; [discriminate|]. split; reflexivity.
  - intros Hm a Ha. unfold renderValue_arg, isSelected. rewrite Hm, Ha.
    reflexivity.
Qed.

(** X10: a multi-select widget whose current value is a number rather than
    an array shows the placeholder with the default label, but with a
    caller's [renderValue] the render throws as soon as there is one
    option. *)
Theorem renderedValue_number_in_multi (p : props) (s : state) (n : Z)
        (f : rendered → string) (placeholder : string) :
  multi p = true → selectedValue p s = Single (VNum n) →
  elems (options p) ≠ [] →
  renderedValue None p s placeholder = Some placeholder
  ∧ renderedValue (Some f) p s placeholder = None.
Proof.
  intros Hm Hs Hne.
  unfold renderedValue, renderValue_arg, getA11ySelectedLabel.
  rewrite Hm, Hs. simpl. split.
  - now rewrite orb_true_r.
  - destruct (elems (options p)); [contradiction|reflexivity].
Qed.

Lemma renderedValue_number_in_multi_witness :
  renderedValue None
    (Props (Array 0%nat abc) (Single (VNum 2)) Null true true false)
    (State false (HNum (-1)) Null) "Select..."
  = Some "Select..."
  ∧ renderedValue (Some (λ _, "custom"))
      (Props (Array 0%nat abc) (Single (VNum 2)) Null true true false)
      (State false (HNum (-1)) Null) "Select..."
    = None.
Proof.
  apply (renderedValue_number_in_multi
           (Props (Array 0%nat abc) (Single (VNum 2)) Null true true false)
           (State false (HNum (-1)) Null) 2 (λ _, "custom") "Select...").
  - reflexivity.
  - reflexivity.
  - vm_compute. discriminate.
Defined.

End Shown.

(** ** The outside listener *)

Section Outside.

Import Dropdown.

(** X11: the listener of [useOnClickOutside] calls the handler exactly
    when no attached element, the main ref or an extra one, contains the
    target; refs that are missing or not attached count for nothing.  For
    the component, whose menu is the main ref and whose trigger is the
    extra one, that is a pointer-down outside both, and only while the
    menu is open. *)
Theorem listener_calls_handler {E : Type} (contains : E → bool)
        (ref_current : option E) (extraRefs : list (option (option E))) :
  (listener contains ref_current extraRefs = true ↔
   (∀ e, ref_current = Some e → contains e = false)
   ∧ (∀ e, Some (Some e) ∈ extraRefs → contains e = false))
  ∧ (∀ (o : bool) (t : target),
       useOnClickOutside o (element_contains t) (Some MenuElement)
                         [Some (Some TriggerElement)]
       = o && outside t).
Proof.
  split.
  - unfold listener. rewrite Bool.negb_true_iff.
    rewrite <- Bool.not_true_iff_false, existsb_exists. split.
    + intros Hno. split.
      * intros e ->. destruct (contains e) eqn:Ec; [|reflexivity].
        exfalso. apply Hno. exists (Some e). split; [now left|exact Ec].
      * intros e He. destruct (contains e) eqn:Ec; [|reflexivity].
        exfalso. apply Hno. exists (Some e). split; [|exact Ec].
        right. apply list_elem_of_In, list_elem_of_fmap. exists e.
        split; [reflexivity|]. apply list_elem_of_omap.
        exists (Some (Some e)). split; [exact He|reflexivity].
    + intros [Hr Hx] ([e|] & Hin & Hc); [|discriminate].
      destruct Hin as [Hin|Hin].
      * rewrite (Hr e Hin) in Hc. discriminate.
      * apply list_elem_of_In, list_elem_of_fmap in Hin as (e' & [= <-] & Hin).
        apply list_elem_of_omap in Hin as (r & Hr' & Hbind).
        destruct r as [[e''|]|]; simpl in Hbind; try discriminate.
        injection Hbind as ->. rewrite (Hx e Hr') in Hc. discriminate.
  - intros o t. destruct o, t; reflexivity.
Qed.

End Outside.

(** ** Events that change nothing, open, or close *)

Section OpenClose.

Import Dropdown.
Open Scope Z_scope.

Lemma commit_unchanged (w : world) (s' : state) (next : ref) :
  w_deps w = deps_of (w_props w) (w_state w) →
  deps_of (w_props w) s' = deps_of (w_props w) (w_state w) →
  commit (w_props w) s' (w_deps w) next
  = Some (World (w_props w) s' (w_deps w) next).
Proof.
  intros Hd Heq. unfold commit. rewrite Heq, <- Hd.
  now rewrite same_deps_refl.
Qed.

(** X12: a disabled widget ignores the trigger click, every key and every
    option click: the state stays as it is and the listener is not
    called. *)
Theorem disabled_ignores_input (w : world) (e : event) :
  reachable w →
  disabled (w_props w) = true →
  e = TriggerClick ∨ (∃ k, e = KeyDown k) ∨ (∃ i, e = OptionClick i) →
  ∃ w', step w e = Some (w', [])
        ∧ w_state w' = w_state w ∧ w_props w' = w_props w.
Proof.
  intros Hr Hd He. apply reachable_deps in Hr.
  destruct He as [->|[[k ->]|[i ->]]]; unfold step.
  - unfold handleClick. rewrite Hd. simpl.
    rewrite (commit_unchanged _ _ _ Hr eq_refl). eauto.
  - unfold handleKeyDown. rewrite Hd. simpl.
    rewrite (commit_unchanged _ _ _ Hr eq_refl). eauto.
  - destruct (if open (w_state w) then _ else _); [|eauto].
    unfold handleSelect. rewrite Hd. simpl.
    rewrite (commit_unchanged _ _ _ Hr eq_refl). eauto.
Qed.

Lemma disabled_ignores_input_witness :
  ∃ w', step (World abc_multi_disabled (State false (HNum (-1)) (Multiple (Array 1%nat [])))
                    (Deps false (Multiple (Array 1%nat [])) true 0%nat) 2%nat)
             (KeyDown Enter) = Some (w', [])
        ∧ w_state w' = State false (HNum (-1)) (Multiple (Array 1%nat []))
        ∧ w_props w' = abc_multi_disabled.
Proof.
  apply (disabled_ignores_input
           (World abc_multi_disabled (State false (HNum (-1)) (Multiple (Array 1%nat [])))
                  (Deps false (Multiple (Array 1%nat [])) true 0%nat) 2%nat)
           (KeyDown Enter)).
  - apply (reachable_mount abc_multi_disabled). vm_compute. reflexivity.
  - reflexivity.
  - right. left. exists Enter. reflexivity.
Defined.

Lemma step_state (w : world) (e : event) (w' : world)
      (out : list notification) :
  step w e = Some (w', out) →
  ∃ s', open (w_state w') = open s'
        ∧ internalValue (w_state w') = internalValue s'
        ∧ match e with
          | TriggerClick => s' = handleClick (w_props w) (w_state w) ∧ out = []
          | KeyDown k =>
              (s', out) = handleKeyDown (w_props w) (w_next w) (w_state w) k
          | OptionClick i =>
              match (if open (w_state w) then elems (options (w_props w)) !! i
                     else None) with
              | Some o =>
                  (s', out) = handleSelect (w_props w) (w_next w) (w_state w) o
              | None => s' = w_state w ∧ out = []
              end
          | OptionMouseEnter i =>
              (s' = setHighlightedIdx (HNum (Z.of_nat i)) (w_state w)
               ∨ s' = w_state w) ∧ out = []
          | PointerDown t =>
              s' = (if open (w_state w) && outside t
                    then setOpen false (w_state w) else w_state w)
              ∧ out = []
          | ParentRender _ => s' = w_state w ∧ out = []
          end.
Proof.
  unfold step. destruct e as [|k|i|i|t|p']; simpl.
  - destruct (commit _ _ _ _) as [w1|] eqn:Hc; [|discriminate].
    intros [= <- <-]. apply commit_Some in Hc as (_ & _ & _ & Ho & Hi & _).
    eauto.
  - destruct (commit _ _ _ _) as [w1|] eqn:Hc; [|discriminate].
    intros [= <- <-]. apply commit_Some in Hc as (_ & _ & _ & Ho & Hi & _).
    eexists. split; [exact Ho|]. split; [exact Hi|]. symmetry. apply surjective_pairing.
  - destruct (if open (w_state w) then _ else _) as [o|].
    + destruct (commit _ _ _ _) as [w1|] eqn:Hc; [|discriminate].
      intros [= <- <-]. apply commit_Some in Hc as (_ & _ & _ & Ho & Hi & _).
      eexists. split; [exact Ho|]. split; [exact Hi|]. symmetry. apply surjective_pairing.
    + intros [= <- <-]. eauto.
  - destruct (if open (w_state w) then _ else _) as [o|].
    + destruct (commit _ _ _ _) as [w1|] eqn:Hc; [|discriminate].
      intros [= <- <-]. apply commit_Some in Hc as (_ & _ & _ & Ho & Hi & _).
      eexists. split; [exact Ho|]. split; [exact Hi|]. auto.
    + intros [= <- <-]. eauto 6.
  - destruct (open (w_state w) && outside t).
    + destruct (commit _ _ _ _) as [w1|] eqn:Hc; [|discriminate].
      intros [= <- <-]. apply commit_Some in Hc as (_ & _ & _ & Ho & Hi & _).
      eauto.
    + intros [= <- <-]. eauto.
  - destruct (commit _ _ _ _) as [w1|] eqn:Hc; [|discriminate].
    intros [= <- <-]. apply commit_Some in Hc as (_ & _ & _ & Ho & Hi & _).
    eauto.
Qed.

(** X13: a closed menu opens by a click on the trigger or by the keys
    ArrowDown, Enter and Space, on a widget that is not disabled, and by
    nothing else; no event on a closed menu calls the listener or changes
    the internal value. *)
Theorem opens_only_by (w : world) (e : event) (w' : world)
        (out : list notification) :
  step w e = Some (w', out) →
  open (w_state w) = false →
  (open (w_state w') = true ↔
   disabled (w_props w) = false
   ∧ (e = TriggerClick ∨ e = KeyDown ArrowDown ∨ e = KeyDown Enter
      ∨ e = KeyDown Space))
  ∧ out = []
  ∧ internalValue (w_state w') = internalValue (w_state w).
Proof.
  intros Hs Hc. apply step_state in Hs as (s' & -> & -> & Hs).
  destruct e as [|k|i|i|t|p']; rewrite ?Hc in Hs; simpl in Hs.
  - destruct Hs as [-> ->]. unfold handleClick.
    destruct (disabled (w_props w)); simpl; rewrite ?Hc; simpl;
      repeat split; try tauto; try (intros [? _]; discriminate);
      try discriminate.
  - unfold handleKeyDown in Hs. rewrite Hc in Hs.
    destruct (disabled (w_props w)); simpl in Hs.
    + injection Hs as -> ->. rewrite Hc.
      repeat split; try discriminate. intros [? _]. discriminate.
    + destruct k; injection Hs as -> ->; simpl; rewrite ?Hc;
        repeat split; auto; try discriminate;
        intros [_ [?|[?|[?|?]]]]; discriminate.
  - destruct Hs as [-> ->]. rewrite Hc.
    repeat split; try discriminate.
    intros [_ [?|[?|[?|?]]]]; discriminate.
  - destruct Hs as [[-> | ->] ->]; simpl; rewrite Hc;
      repeat split; try discriminate;
      intros [_ [?|[?|[?|?]]]]; discriminate.
  - destruct Hs as [-> ->]. rewrite Hc.
    repeat split; try discriminate.
    intros [_ [?|[?|[?|?]]]]; discriminate.
  - destruct Hs as [-> ->]. rewrite Hc.
    repeat split; try discriminate.
    intros [_ [?|[?|[?|?]]]]; discriminate.
Qed.

Lemma opens_only_by_witness :
  ∃ w', step (World abc_props (State false (HNum (-1)) Null)
                    (Deps false Null false 0%nat) 2%nat)
             (KeyDown ArrowUp) = Some (w', [])
        ∧ ¬ open (w_state w') = true.
Proof.
  eexists. split; [vm_compute; reflexivity|].
  intros Ho.
  pose proof (opens_only_by
                (World abc_props (State false (HNum (-1)) Null)
                       (Deps false Null false 0%nat) 2%nat)
                (KeyDown ArrowUp) _ [] eq_refl eq_refl) as (Hiff & _).
  apply Hiff in Ho as [_ [H|[H|[H|H]]]]; discriminate.
Defined.

End OpenClose.

Section Dismiss.

Import Dropdown.
Open Scope Z_scope.

Lemma close_settles (w : world) :
  w_deps w = deps_of (w_props w) (w_state w) → open (w_state w) = true →
  commit (w_props w) (setOpen false (w_state w)) (w_deps w) (S (w_next w))
  = Some (World (w_props w)
                (State false (HNum (-1)) (internalValue (w_state w)))
                (deps_of (w_props w) (setOpen false (w_state w)))
                (S (w_next w))).
Proof.
  intros Hd Ho.
  rewrite (commit_rerun _ _ _ _ (HNum (-1))); [reflexivity| |reflexivity].
  rewrite Hd. unfold same_deps. simpl. now rewrite Ho.
Qed.

(** X14: an open menu is dismissed by a pointer-down outside the menu and
    the trigger, and, when the widget is not disabled, by a click on the
    trigger and by the keys Escape and Tab: the menu closes, the highlight
    goes back to -1, and neither the value nor the listener is touched.  A
    pointer-down inside the menu or on the trigger is not a dismissal. *)
Theorem dismissal (w : world) :
  reachable w →
  open (w_state w) = true →
  (∀ e, e = PointerDown Elsewhere
        ∨ (disabled (w_props w) = false
           ∧ (e = TriggerClick ∨ e = KeyDown Escape ∨ e = KeyDown Tab)) →
        ∃ w', step w e = Some (w', [])
              ∧ w_props w' = w_props w
              ∧ w_state w'
                = State false (HNum (-1)) (internalValue (w_state w)))
  ∧ step w (PointerDown InMenu) = Some (w, [])
  ∧ step w (PointerDown InTrigger) = Some (w, []).
Proof.
  intros Hr Ho. apply reachable_deps in Hr.
  split; [|split].
  - intros e [->|[Hd [->|[->| ->]]]]; unfold step.
    + rewrite Ho. simpl. rewrite (close_settles _ Hr Ho). eauto.
    + unfold handleClick. rewrite Hd, Ho. simpl.
      rewrite (close_settles _ Hr Ho). eauto.
    + unfold handleKeyDown. rewrite Hd, Ho. simpl.
      rewrite (close_settles _ Hr Ho). eauto.
    + unfold handleKeyDown. rewrite Hd, Ho. simpl.
      rewrite (close_settles _ Hr Ho). eauto.
  - unfold step. now rewrite Ho.
  - unfold step. now rewrite Ho.
Qed.

Lemma dismissal_witness :
  ∃ w', step abc_second (KeyDown Escape) = Some (w', [])
        ∧ w_props w' = w_props abc_second
        ∧ w_state w' = State false (HNum (-1)) (internalValue (w_state abc_second)).
Proof.
  apply (proj1 (dismissal abc_second abc_second_reachable eq_refl)).
  right. split; [reflexivity|]. right. left. reflexivity.
Defined.

(** X15: an open menu is closed only by a dismissal or by a selection in
    single-select mode; the arrow keys, hovering, a pointer-down inside, a
    selection in multi-select mode and a re-render by the parent never
    close it. *)
Theorem closes_only_by (w : world) (e : event) (w' : world)
        (out : list notification) :
  step w e = Some (w', out) →
  open (w_state w) = true →
  open (w_state w') = false →
  e = PointerDown Elsewhere
  ∨ (disabled (w_props w) = false
     ∧ (e = TriggerClick ∨ e = KeyDown Escape ∨ e = KeyDown Tab
        ∨ (multi (w_props w) = false
           ∧ (e = KeyDown Enter ∨ e = KeyDown Space ∨ ∃ i, e = OptionClick i)))).
Proof.
  intros Hs Ho Hc. apply step_state in Hs as (s' & Hopen & _ & Hs).
  rewrite Hopen in Hc. clear Hopen.
  assert (Hsel : ∀ f o, open (fst (handleSelect (w_props w) f (w_state w) o)) = false →
                        disabled (w_props w) = false ∧ multi (w_props w) = false).
  { intros f o. rewrite handleSelect_open.
    destruct (disabled (w_props w)), (multi (w_props w)); simpl; auto;
      rewrite Ho; discriminate. }
  destruct e as [|k|i|i|t|p']; rewrite ?Ho in Hs; simpl in Hs.
  - destruct Hs as [-> _]. unfold handleClick in Hc.
    destruct (disabled (w_props w)); [congruence|]. right. auto.
  - unfold handleKeyDown in Hs. rewrite Ho in Hs.
    destruct (disabled (w_props w)) eqn:Hd; simpl in Hs.
    + injection Hs as -> _. congruence.
    + destruct k; try (injection Hs as -> _; simpl in Hc; congruence);
        try (right; split; [reflexivity|]; auto; fail).
      * destruct (highlighted_option _ _) as [o|].
        -- assert (Hs' : s' = fst (handleSelect (w_props w) (w_next w) (w_state w) o))
             by now rewrite <- Hs.
           rewrite Hs' in Hc. apply Hsel in Hc as [_ Hm].
           right. split; [reflexivity|]. do 3 right. split; [exact Hm|].
           left. reflexivity.
        -- injection Hs as -> _. congruence.
      * destruct (highlighted_option _ _) as [o|].
        -- assert (Hs' : s' = fst (handleSelect (w_props w) (w_next w) (w_state w) o))
             by now rewrite <- Hs.
           rewrite Hs' in Hc. apply Hsel in Hc as [_ Hm].
           right. split; [reflexivity|]. do 3 right. split; [exact Hm|].
           right. left. reflexivity.
        -- injection Hs as -> _. congruence.
  - destruct (elems (options (w_props w)) !! i) as [o|].
    + assert (Hs' : s' = fst (handleSelect (w_props w) (w_next w) (w_state w) o))
        by now rewrite <- Hs.
      rewrite Hs' in Hc. apply Hsel in Hc as [Hd Hm].
      right. split; [exact Hd|]. do 3 right. split; [exact Hm|].
      right. right. eauto.
    + destruct Hs as [-> _]. congruence.
  - destruct Hs as [[-> | ->] _]; simpl in Hc; congruence.
  - destruct Hs as [-> _]. destruct t; simpl in Hc; try congruence. now left.
  - destruct Hs as [-> _]. congruence.
Qed.

Lemma closes_only_by_witness :
  ∃ w', step abc_multi_third (OptionClick 0) = Some (w', [Changed (Multiple (Array 5%nat [VNum 1]))])
        ∧ open (w_state w') = true.
Proof.
  eexists. split; [vm_compute; reflexivity|].
  destruct (open (w_state _)) eqn:Hc; [reflexivity|]. exfalso.
  pose proof (closes_only_by abc_multi_third (OptionClick 0) _ _ eq_refl
                eq_refl Hc) as [H|[_ [H|[H|[H|[Hm _]]]]]]; discriminate.
Defined.

End Dismiss.

(** ** Committing with the keyboard *)

Section Commit.

Import Dropdown.
Open Scope Z_scope.

Lemma step_Enter_highlighted (w : world) (k : key) (i : nat) (o : opt) :
  k = Enter ∨ k = Space →
  open (w_state w) = true → disabled (w_props w) = false →
  highlightedIdx (w_state w) = HNum (Z.of_nat i) →
  elems (options (w_props w)) !! i = Some o →
  step w (KeyDown k) = step w (OptionClick i).
Proof.
  intros Hk Ho Hd Hh Hi.
  rewrite (step_OptionClick _ _ _ Ho Hi). unfold step, handleKeyDown.
  rewrite Hd, Ho, Hh. simpl.
  assert (Hz : (0 <=? Z.of_nat i) = true) by (apply Z.leb_le; lia).
  rewrite Hz, Nat2Z.id, Hi. destruct Hk as [-> | ->]; reflexivity.
Qed.

(** X16: on an open menu of a widget that is not disabled, with the
    highlight on option [i], Enter and Space do exactly what a click on
    option [i] does.  In the worlds of [reachable_plain] (no lookup of the
    selected value found an inherited member) there always is such an option
    when the list is not empty.  When the highlight selects no option, as
    over an empty list, the two keys change nothing and call nobody. *)
Theorem enter_commits_highlighted (w : world) :
  reachable w →
  open (w_state w) = true →
  disabled (w_props w) = false →
  (∀ i o, highlightedIdx (w_state w) = HNum (Z.of_nat i) →
          elems (options (w_props w)) !! i = Some o →
          step w (KeyDown Enter) = step w (OptionClick i)
          ∧ step w (KeyDown Space) = step w (OptionClick i))
  ∧ (reachable_plain w → elems (options (w_props w)) ≠ [] →
     ∃ i o, highlightedIdx (w_state w) = HNum (Z.of_nat i)
            ∧ elems (options (w_props w)) !! i = Some o)
  ∧ (highlighted_option (elems (options (w_props w)))
                        (highlightedIdx (w_state w)) = None →
     ∀ k, k = Enter ∨ k = Space →
          ∃ w', step w (KeyDown k) = Some (w', [])
                ∧ w_state w' = w_state w ∧ w_props w' = w_props w)
  ∧ (elems (options (w_props w)) = [] →
     highlighted_option (elems (options (w_props w)))
                        (highlightedIdx (w_state w)) = None).
Proof.
  intros Hr Ho Hd. apply reachable_deps in Hr as Hdeps.
  split; [|split; [|split]].
  - intros i o Hh Hi. split; eapply step_Enter_highlighted; eauto.
  - intros Hp Hne. apply reachable_plain_settled in Hp as [_ [_ Hopen]].
    destruct (Hopen Ho Hne) as (z & Hz & Hrange).
    assert (Hlt : (Z.to_nat z < length (elems (options (w_props w))))%nat) by lia.
    apply lookup_lt_is_Some in Hlt as [o Hi].
    exists (Z.to_nat z), o. split; [|exact Hi].
    rewrite Hz. f_equal. lia.
  - intros Hnone k Hk. unfold step, handleKeyDown. rewrite Hd, Ho. simpl.
    destruct Hk as [-> | ->]; rewrite Hnone; simpl;
      rewrite (commit_unchanged _ _ _ Hdeps eq_refl); eauto.
  - intros ->. apply highlighted_option_nil.
Qed.

Lemma enter_commits_highlighted_witness :
  step abc_second (KeyDown Enter) = step abc_second (OptionClick 1)
  ∧ step abc_second (KeyDown Space) = step abc_second (OptionClick 1).
Proof.
  apply (proj1 (enter_commits_highlighted abc_second abc_second_reachable
                  eq_refl eq_refl) 1%nat (Opt "B" (VNum 2)));
    reflexivity.
Defined.

(** X17: at most one option carries the highlighted class.  In the worlds
    of [reachable_plain], exactly one does while the menu is open over a
    non-empty list; a closed menu highlights none. *)
Theorem one_option_highlighted (w : world) :
  reachable w →
  (reachable_plain w → open (w_state w) = true →
   elems (options (w_props w)) ≠ [] →
   ∃ i, (i < length (elems (options (w_props w))))%nat
        ∧ ∀ j, option_highlighted j (highlightedIdx (w_state w)) = true ↔ j = i)
  ∧ (open (w_state w) = false →
     ∀ j, option_highlighted j (highlightedIdx (w_state w)) = false)
  ∧ (∀ j j', option_highlighted j (highlightedIdx (w_state w)) = true →
             option_highlighted j' (highlightedIdx (w_state w)) = true →
             j = j').
Proof.
  intros Hr. split; [|split].
  - intros Hp Ho Hne. apply reachable_plain_settled in Hp as [_ [_ Hopen]].
    destruct (Hopen Ho Hne) as (z & -> & Hrange).
    exists (Z.to_nat z). split; [lia|].
    intros j. unfold option_highlighted. rewrite Z.eqb_eq. lia.
  - intros Hc j. rewrite (reachable_closed _ Hr Hc). unfold option_highlighted.
    apply Z.eqb_neq. lia.
  - intros j j'. unfold option_highlighted.
    destruct (highlightedIdx (w_state w)); try discriminate.
    rewrite !Z.eqb_eq. lia.
Qed.

Lemma one_option_highlighted_witness :
  ∃ i, (i < 3)%nat
       ∧ ∀ j, option_highlighted j (highlightedIdx (w_state abc_second)) = true
              ↔ j = i.
Proof.
  apply (proj1 (one_option_highlighted abc_second abc_second_reachable)).
  - exact abc_second_plain.
  - reflexivity.
  - vm_compute. discriminate.
Defined.

(** X18: hovering an option of the open menu moves the highlight to it,
    disabled or not, and changes nothing else; on a widget that is not
    disabled Enter then commits the hovered option. *)
Theorem hover_then_enter (w : world) (i : nat) (o : opt) :
  reachable w →
  open (w_state w) = true →
  elems (options (w_props w)) !! i = Some o →
  ∃ w1, step w (OptionMouseEnter i) = Some (w1, [])
        ∧ w_props w1 = w_props w
        ∧ w_state w1 = setHighlightedIdx (HNum (Z.of_nat i)) (w_state w)
        ∧ (disabled (w_props w) = false →
           step w1 (KeyDown Enter) = step w1 (OptionClick i)).
Proof.
  intros Hr Ho Hi. apply reachable_deps in Hr.
  pose (w1 := World (w_props w)
                    (setHighlightedIdx (HNum (Z.of_nat i)) (w_state w))
                    (w_deps w) (S (w_next w))).
  assert (Hs : step w (OptionMouseEnter i) = Some (w1, [])).
  { unfold step. rewrite Ho, Hi. simpl.
    now rewrite (commit_unchanged w
                   (setHighlightedIdx (HNum (Z.of_nat i)) (w_state w))
                   _ Hr eq_refl). }
  exists w1. split; [exact Hs|].
  split; [reflexivity|]. split; [reflexivity|].
  intros Hd. apply (step_Enter_highlighted w1 Enter i o); auto.
Qed.

Lemma hover_then_enter_witness :
  ∃ w1, step abc_second (OptionMouseEnter 2) = Some (w1, [])
        ∧ w_props w1 = w_props abc_second
        ∧ w_state w1 = setHighlightedIdx (HNum 2) (w_state abc_second)
        ∧ (disabled (w_props abc_second) = false →
           step w1 (KeyDown Enter) = step w1 (OptionClick 2)).
Proof.
  exact (hover_then_enter abc_second 2 (Opt "C" (VNum 3))
           abc_second_reachable eq_refl eq_refl).
Defined.

(** X19: an event calls the listener at most once, and only a click on an
    option or the keys Enter and Space do, on an open menu of a widget
    that is not disabled and has a listener; what the listener receives is
    the value of an option in single-select mode and the toggled array in
    multi-select mode. *)
Theorem notifications (w : world) (e : event) (w' : world)
        (out : list notification) :
  step w e = Some (w', out) →
  out = []
  ∨ ∃ o, o ∈ elems (options (w_props w))
         ∧ open (w_state w) = true
         ∧ disabled (w_props w) = false
         ∧ onChange (w_props w) = true
         ∧ ((∃ i, e = OptionClick i) ∨ e = KeyDown Enter ∨ e = KeyDown Space)
         ∧ out = [Changed
                    (if multi (w_props w)
                     then Multiple
                            (Array (w_next w)
                                   (toggle (oldVals (selectedValue (w_props w) (w_state w)))
                                           (opt_value o)))
                     else Single (opt_value o))].
Proof.
  intros Hs. apply step_state in Hs as (s' & _ & _ & Hs).
  assert (Hsel : ∀ o, o ∈ elems (options (w_props w)) →
            open (w_state w) = true →
            (s', out) = handleSelect (w_props w) (w_next w) (w_state w) o →
            out = []
            ∨ disabled (w_props w) = false ∧ onChange (w_props w) = true
              ∧ out = [Changed
                         (if multi (w_props w)
                          then Multiple
                                 (Array (w_next w)
                                        (toggle (oldVals (selectedValue (w_props w) (w_state w)))
                                                (opt_value o)))
                          else Single (opt_value o))]).
  { intros o _ _ Heq.
    assert (Hout : out = snd (handleSelect (w_props w) (w_next w) (w_state w) o))
      by now rewrite <- Heq.
    destruct (disabled (w_props w)) eqn:Hd.
    - left. rewrite Hout. unfold handleSelect. now rewrite Hd.
    - rewrite (handleSelect_notifies _ _ _ _ Hd) in Hout. unfold notify in Hout.
      destruct (onChange (w_props w)); [right|left]; auto. }
  destruct e as [|k|i|i|t|p']; simpl in Hs;
    try (left; tauto).
  - unfold handleKeyDown in Hs.
    destruct (disabled (w_props w)) eqn:Hd; [left; congruence|].
    destruct (open (w_state w)) eqn:Ho; simpl in Hs.
    + destruct k; try (left; congruence).
      * destruct (highlighted_option _ _) as [o|] eqn:Eh; [|left; congruence].
        assert (Hin : o ∈ elems (options (w_props w)))
          by (eapply highlighted_option_elem; eauto).
        destruct (Hsel o Hin eq_refl Hs) as [->|(Hd' & Hon & ->)]; [now left|].
        right. exists o. eauto 10.
      * destruct (highlighted_option _ _) as [o|] eqn:Eh; [|left; congruence].
        assert (Hin : o ∈ elems (options (w_props w)))
          by (eapply highlighted_option_elem; eauto).
        destruct (Hsel o Hin eq_refl Hs) as [->|(Hd' & Hon & ->)]; [now left|].
        right. exists o. eauto 10.
    + destruct k; left; congruence.
  - destruct (open (w_state w)) eqn:Ho; [|left; tauto].
    destruct (elems (options (w_props w)) !! i) as [o|] eqn:Ei; [|left; tauto].
    assert (Hin : o ∈ elems (options (w_props w)))
      by (eapply list_elem_of_lookup_2; eauto).
    destruct (Hsel o Hin eq_refl Hs) as [->|(Hd' & Hon & ->)]; [now left|].
    right. exists o. eauto 10.
Qed.

Lemma notifications_witness :
  ([Changed (Single (VNum 2))] : list notification) = []
  ∨ ∃ o, o ∈ elems (options (w_props abc_second))
         ∧ open (w_state abc_second) = true
         ∧ disabled (w_props abc_second) = false
         ∧ onChange (w_props abc_second) = true
         ∧ ((∃ i, KeyDown Enter = OptionClick i) ∨ KeyDown Enter = KeyDown Enter
            ∨ KeyDown Enter = KeyDown Space)
         ∧ [Changed (Single (VNum 2))]
           = [Changed
                (if multi (w_props abc_second)
                 then Multiple
                        (Array (w_next abc_second)
                               (toggle (oldVals (selectedValue (w_props abc_second)
                                                               (w_state abc_second)))
                                       (opt_value o)))
                 else Single (opt_value o))].
Proof.
  apply (notifications abc_second (KeyDown Enter)
           (World abc_props (State false (HNum (-1)) (Single (VNum 2)))
                  (Deps false (Single (VNum 2)) false 0%nat) 5%nat)).
  vm_compute. reflexivity.
Defined.

End Commit.

(** ** Sequences of events *)

Section Sequences.

Import Dropdown.
Open Scope Z_scope.

(** X20: on an uncontrolled single-select widget whose options have
    distinct keys, selecting option [i] and opening the menu again
    highlights option [i], and option [i] is then the only one marked
    selected.  (An option whose value is the string [__proto__] is
    excluded: the lookup object cannot hold it.) *)
Theorem select_then_reopen (w : world) (i : nat) (o : opt) :
  reachable w →
  open (w_state w) = true →
  multi (w_props w) = false →
  disabled (w_props w) = false →
  isControlled (w_props w) = false →
  NoDup (map (λ o, to_key (opt_value o)) (elems (options (w_props w)))) →
  elems (options (w_props w)) !! i = Some o →
  to_key (opt_value o) ≠ "__proto__" →
  ∃ w1 w2,
    step w (OptionClick i) = Some (w1, notify (w_props w) (Single (opt_value o)))
    ∧ step w1 TriggerClick = Some (w2, [])
    ∧ w_props w2 = w_props w
    ∧ w_state w2 = State true (HNum (Z.of_nat i)) (Single (opt_value o))
    ∧ ∀ j o', elems (options (w_props w)) !! j = Some o' →
              (isSelected (w_props w2) (w_state w2) (opt_value o') = true ↔ j = i).
Proof.
  intros Hr Ho Hm Hd Hc Hnd Hi Hk.
  apply reachable_deps in Hr as Hdeps.
  set (p := w_props w) in *. set (v := opt_value o) in *.
  pose (s1 := State false (HNum (-1)) (Single v)).
  pose (w1 := World p s1 (deps_of p s1) (S (w_next w))).
  pose (s2 := State true (HNum (Z.of_nat i)) (Single v)).
  pose (w2 := World p s2 (deps_of p s2) (S (S (w_next w)))).
  assert (H1 : step w (OptionClick i) = Some (w1, notify p (Single v))).
  { rewrite (step_OptionClick _ _ _ Ho Hi).
    rewrite (handleSelect_single_eq _ _ _ _ Hm Hd). fold p. rewrite Hc. simpl.
    rewrite (commit_rerun _ _ _ _ (HNum (-1))); [reflexivity| |reflexivity].
    rewrite Hdeps. unfold same_deps. simpl. now rewrite Ho. }
  assert (H2 : step w1 TriggerClick = Some (w2, [])).
  { unfold step, handleClick. simpl. fold p. rewrite Hd. simpl.
    rewrite (commit_rerun _ _ _ _ (HNum (Z.of_nat i))); [reflexivity|reflexivity|].
    unfold highlight_effect. simpl. rewrite Hm. simpl.
    unfold selectedValue. rewrite Hc. simpl.
    unfold get_prop. rewrite value2idx_lookup. unfold v.
    rewrite bool_decide_eq_false_2 by exact Hk.
    now rewrite (last_index_NoDup _ _ _ Hnd Hi). }
  exists w1, w2. split; [exact H1|]. split; [exact H2|].
  split; [reflexivity|]. split; [reflexivity|].
  intros j o' Hj. unfold isSelected. simpl. fold p. rewrite Hm. simpl.
  unfold selectedValue. rewrite Hc. simpl.
  rewrite bool_decide_eq_true. split.
  - intros Hv.
    assert (Hkj : map (λ o, to_key (opt_value o)) (elems (options p)) !! j
                  = Some (to_key v)).
    { rewrite list_lookup_fmap, Hj. simpl. now rewrite <- Hv. }
    assert (Hki : map (λ o, to_key (opt_value o)) (elems (options p)) !! i
                  = Some (to_key v)).
    { rewrite list_lookup_fmap, Hi. reflexivity. }
    eapply NoDup_lookup; eauto.
  - intros ->. rewrite Hi in Hj. injection Hj as <-. reflexivity.
Qed.

Lemma select_then_reopen_witness :
  ∃ w1 w2,
    step abc_second (OptionClick 2)
    = Some (w1, notify (w_props abc_second) (Single (VNum 3)))
    ∧ step w1 TriggerClick = Some (w2, [])
    ∧ w_props w2 = w_props abc_second
    ∧ w_state w2 = State true (HNum 2) (Single (VNum 3))
    ∧ ∀ j o', elems (options (w_props abc_second)) !! j = Some o' →
              (isSelected (w_props w2) (w_state w2) (opt_value o') = true ↔ j = 2%nat).
Proof.
  apply (select_then_reopen abc_second 2 (Opt "C" (VNum 3))
           abc_second_reachable eq_refl eq_refl eq_refl eq_refl).
  - apply (bool_decide_unpack _). vm_compute. exact I.
  - reflexivity.
  - vm_compute. discriminate.
Defined.

(** X21: a re-render by the parent that passes the same options array,
    the same mode and the same selected value leaves the state alone,
    whatever else it changes (the listener, the disabled flag, the default
    value): in particular an open menu keeps its highlight, and the
    default value is read at mount only. *)
Theorem rerender_keeps_state (w : world) (p' : props) :
  reachable w →
  ref_of (options p') = ref_of (options (w_props w)) →
  multi p' = multi (w_props w) →
  Object_is (selectedValue (w_props w) (w_state w))
            (selectedValue p' (w_state w)) = true →
  ∃ w', step w (ParentRender p') = Some (w', [])
        ∧ w_props w' = p' ∧ w_state w' = w_state w.
Proof.
  intros Hr Href Hm Hsel. apply reachable_deps in Hr as Hdeps.
  unfold step. rewrite commit_same.
  - eexists. split; [reflexivity|]. split; reflexivity.
  - rewrite Hdeps. unfold same_deps. simpl.
    rewrite Hsel, Hm, Href.
    now rewrite !Bool.eqb_reflx, Nat.eqb_refl.
Qed.

Lemma rerender_keeps_state_witness :
  ∃ w', step abc_second
             (ParentRender (Props (Array 0%nat abc) Null (Single (VNum 3))
                                  false false true))
        = Some (w', [])
        ∧ w_props w' = Props (Array 0%nat abc) Null (Single (VNum 3))
                             false false true
        ∧ w_state w' = w_state abc_second.
Proof.
  exact (rerender_keeps_state abc_second
           (Props (Array 0%nat abc) Null (Single (VNum 3)) false false true)
           abc_second_reachable eq_refl eq_refl eq_refl).
Defined.

Lemma step_internal_NoDup (w : world) (e : event) (w' : world)
      (out : list notification) :
  step w e = Some (w', out) →
  NoDup (oldVals (internalValue (w_state w))) →
  NoDup (oldVals (internalValue (w_state w'))).
Proof.
  intros Hs Hnd. apply step_state in Hs as (s' & _ & -> & Hs).
  assert (Hsel : ∀ f o, NoDup (oldVals (internalValue
                   (fst (handleSelect (w_props w) f (w_state w) o))))).
  { intros f o. unfold handleSelect, selectedValue.
    destruct (disabled (w_props w)), (multi (w_props w)),
      (isControlled (w_props w)); simpl; auto using NoDup_nil_2.
    now apply toggle_NoDup. }
  destruct e as [|k|i|i|t|p']; simpl in Hs.
  - destruct Hs as [-> _]. unfold handleClick.
    now destruct (disabled (w_props w)).
  - assert (Hs' : s' = fst (handleKeyDown (w_props w) (w_next w) (w_state w) k))
      by now rewrite <- Hs.
    rewrite Hs'. unfold handleKeyDown.
    destruct (disabled (w_props w)); [exact Hnd|].
    destruct (negb (open (w_state w))); [now destruct k|].
    destruct k; simpl; try exact Hnd;
      (destruct (highlighted_option _ _); [apply Hsel|exact Hnd]).
  - destruct (if open (w_state w) then _ else _) as [o|].
    + assert (Hs' : s' = fst (handleSelect (w_props w) (w_next w) (w_state w) o))
        by now rewrite <- Hs.
      rewrite Hs'. apply Hsel.
    + now destruct Hs as [-> _].
  - now destruct Hs as [[-> | ->] _].
  - destruct Hs as [-> _]. now destruct (open (w_state w) && outside t).
  - now destruct Hs as [-> _].
Qed.

(** X22: when the default value holds no value twice, the internal
    selection never does, whatever events follow the mount. *)
Theorem internal_selection_NoDup (p : props) (w0 w : world) (es : list event) :
  mount p = Some w0 →
  NoDup (oldVals (defaultValue p)) →
  run w0 es = Some w →
  NoDup (oldVals (internalValue (w_state w))).
Proof.
  intros Hm Hnd Hrun.
  assert (H0 : NoDup (oldVals (internalValue (w_state w0)))).
  { unfold mount in Hm. destruct (highlight_effect _ _); [|discriminate].
    injection Hm as <-. simpl. unfold initialValue.
    destruct (defaultValue p); simpl in *; auto using NoDup_nil_2.
    destruct (multi p); simpl; apply NoDup_nil_2. }
  clear Hm Hnd. revert w0 H0 Hrun.
  induction es as [|e es IH]; intros w0 H0; simpl.
  - now intros [= <-].
  - destruct (step w0 e) as [[w1 out]|] eqn:Es; [|discriminate].
    apply IH. eapply step_internal_NoDup; eauto.
Qed.

Lemma internal_selection_NoDup_witness :
  NoDup (oldVals (internalValue (w_state
    (World abc_multi (State true (HNum 0) (Multiple (Array 5%nat [VNum 2])))
           (Deps true (Multiple (Array 5%nat [VNum 2])) true 0%nat) 6%nat)))).
Proof.
  apply (internal_selection_NoDup abc_multi
           (World abc_multi (State false (HNum (-1)) (Multiple (Array 1%nat [])))
                  (Deps false (Multiple (Array 1%nat [])) true 0%nat) 2%nat)
           _ [TriggerClick; KeyDown ArrowDown; KeyDown ArrowDown; OptionClick 1]).
  - vm_compute. reflexivity.
  - apply NoDup_nil_2.
  - vm_compute. reflexivity.
Defined.

End Sequences.

(** ** The listener and the value *)

Section Told.

Import Dropdown.
Open Scope Z_scope.

Lemma step_props (w : world) (e : event) (w' : world)
      (out : list notification) :
  step w e = Some (w', out) →
  w_props w' = match e with
               | ParentRender p' => p'
               | _ => w_props w
               end.
Proof.
  unfold step.
  destruct e as [|k|i|i|t|p']; simpl;
    repeat match goal with
           | |- context [match commit ?a ?b ?c ?d with _ => _ end] =>
               let Hc := fresh "Hc" in
               destruct (commit a b c d) eqn:Hc;
               [apply commit_Some in Hc as (Hc & _)|discriminate]
           | |- context [if ?b then _ else _] => destruct b
           | |- context [match ?l !! ?i with _ => _ end] => destruct (l !! i)
           end;
    intros [= <- _]; auto.
Qed.

Lemma handleSelect_told (p : props) (f : ref) (s : state) (o : opt)
      (v : selection) :
  isControlled p = false →
  snd (handleSelect p f s o) = [Changed v] →
  internalValue (fst (handleSelect p f s o)) = v.
Proof.
  intros Hc. unfold handleSelect, notify. rewrite Hc.
  destruct (disabled p), (multi p), (onChange p); simpl;
    try discriminate; now intros [= <-].
Qed.

(** X23: on an uncontrolled widget the listener is told the value the
    widget holds from then on: whenever an event calls [onChange(v)], the
    current value after the event is [v]. *)
Theorem listener_told_current_value (w : world) (e : event) (w' : world)
        (v : selection) :
  step w e = Some (w', [Changed v]) →
  isControlled (w_props w) = false →
  selectedValue (w_props w') (w_state w') = v.
Proof.
  intros Hs Hc.
  pose proof (step_props _ _ _ _ Hs) as Hp.
  apply step_state in Hs as (s' & _ & Hint & Hs).
  assert (Hsel : ∀ o, (s', [Changed v])
                      = handleSelect (w_props w) (w_next w) (w_state w) o →
                      internalValue s' = v).
  { intros o Heq.
    assert (H1 : s' = fst (handleSelect (w_props w) (w_next w) (w_state w) o))
      by now rewrite <- Heq.
    rewrite H1. apply handleSelect_told; [exact Hc|]. now rewrite <- Heq. }
  destruct e as [|k|i|i|t|p']; simpl in Hs;
    try (apply proj2 in Hs; discriminate).
  - unfold selectedValue. rewrite Hp, Hc, Hint.
    unfold handleKeyDown in Hs.
    destruct (disabled (w_props w)); [discriminate|].
    destruct (negb (open (w_state w))); [destruct k; discriminate|].
    destruct k; try discriminate;
      (destruct (highlighted_option _ _) as [o|]; [eapply Hsel; eauto|discriminate]).
  - unfold selectedValue. rewrite Hp, Hc, Hint.
    destruct (if open (w_state w) then _ else _) as [o|].
    + eapply Hsel; eauto.
    + destruct Hs as [_ Hs]. discriminate.
Qed.

Lemma listener_told_current_value_witness :
  selectedValue
    (w_props (World abc_props (State false (HNum (-1)) (Single (VNum 2)))
                    (Deps false (Single (VNum 2)) false 0%nat) 5%nat))
    (w_state (World abc_props (State false (HNum (-1)) (Single (VNum 2)))
                    (Deps false (Single (VNum 2)) false 0%nat) 5%nat))
  = Single (VNum 2).
Proof.
  apply (listener_told_current_value abc_second (KeyDown Enter)).
  - vm_compute. reflexivity.
  - reflexivity.
Defined.

End Told.
